(** * bindit: the binding store and the input adapter, verified

    A shallow embedding of the two-way binding engine
    ([BindingStore], its [Binding] views) and of the event handlers of the
    React hook [useBind], with the properties of their specification.

    Conventions of the embedding.
    - JavaScript values are the JSON-like ones: primitives and plain objects,
      an object being the insertion-ordered list of its own properties.
      Numbers are IEEE binary64, as in the language.
    - The modules are ES modules, hence strict: creating a property on a
      primitive raises [TypeError], like the [in] test on a non-object.
    - Property names that a plain object inherits from [Object.prototype]
      are not given their inherited meaning; statements about reading
      back a written path say [own_names].
    - User functions (transforms, validators, subscriber callbacks) either
      return or throw; they do not call back into the store. Each call
      is recorded in the trace a store operation emits.
    - The [Set] objects of the subscriber registry live in a heap indexed
      by allocation order, since an unsubscribe closure keeps the set it was
      created for. *)

From Stdlib Require Import PrimFloat Ascii String.
From stdpp Require Import gmap strings list.

Open Scope string_scope.
Open Scope list_scope.

(** ** Values *)

Definition number := float.

#[warnings="-register-all"]
Inductive value :=
  | VUndefined
  | VNull
  | VBool (b : bool)
  | VNumber (n : number)
  | VString (s : string)
  | VObject (props : list (string * value)).

(** A plain object: its own properties, in insertion order. *)
Definition object := list (string * value).

(** [obj[key]] restricted to own properties. *)
Fixpoint own (key : string) (props : object) : option value :=
  match props with
  | [] => None
  | (k, v) :: rest => if String.eqb k key then Some v else own key rest
  end.

(** [obj[key] = v]: an existing property keeps its place, a new one is
    added last. *)
Fixpoint put (key : string) (v : value) (props : object) : object :=
  match props with
  | [] => [(key, v)]
  | (k, w) :: rest =>
      if String.eqb k key then (k, v) :: rest else (k, w) :: put key v rest
  end.

(** What a call may raise: the runtime's [TypeError], or whatever a user
    function throws. *)
Inductive exn :=
  | TypeError
  | UserThrow (payload : value).

Inductive outcome (A : Type) :=
  | Ret (a : A)
  | Throw (e : exn).
Arguments Ret {A} a.
Arguments Throw {A} e.

(** ** Paths *)

(** [path.split('.')]: never empty; the empty string gives one empty key. *)
Fixpoint split (path : string) : list string :=
  match path with
  | EmptyString => [""]
  | String c rest =>
      if Ascii.eqb c "."%char then "" :: split rest
      else match split rest with
           | [] => [String c ""]
           | k :: ks => String c k :: ks
           end
  end.

(** [keys.pop()]: the last key, and what remains of [keys]. *)
Definition pop (keys : list string) : list string * string :=
  (removelast keys, List.last keys "").

(** The names every plain object inherits from [Object.prototype]. *)
Definition inherited_names : list string :=
  [ "__proto__"; "constructor"; "hasOwnProperty"; "isPrototypeOf";
    "propertyIsEnumerable"; "toLocaleString"; "toString"; "valueOf";
    "__defineGetter__"; "__defineSetter__"; "__lookupGetter__";
    "__lookupSetter__" ].

Definition own_names (path : string) : bool :=
  forallb (fun k => negb (existsb (String.eqb k) inherited_names)) (split path).

(** ** PathResolver *)

(** [current?.[key]] *)
Definition optional_get (current : value) (key : string) : value :=
  match current with
  | VObject props => default VUndefined (own key props)
  | _ => VUndefined
  end.

(** [path.split('.').reduce((current, key) => current?.[key], obj)] *)
Definition getNestedValue (obj : object) (path : string) : value :=
  fold_left optional_get (split path) (VObject obj).

(** The [reduce] of [setNestedValue] followed by [target[lastKey] = value],
    on the object [current]. The source walks down, creating [{}] under a
    key that is not [in] the current object, and assigns in place; here
    the walk rebuilds the spine it went through. A key bound to anything
    but an object stops the walk with [TypeError]: either the next [in]
    test or the final assignment is applied to a primitive. Nothing has
    been created by then, for a created object is empty and every later key
    is created in turn. *)
Fixpoint assign_at (keys : list string) (lastKey : string) (v : value)
    (current : object) : outcome object :=
  match keys with
  | [] => Ret (put lastKey v current)
  | key :: keys' =>
      match own key current with
      | None =>
          match assign_at keys' lastKey v [] with
          | Ret child => Ret (put key (VObject child) current)
          | Throw e => Throw e
          end
      | Some (VObject next) =>
          match assign_at keys' lastKey v next with
          | Ret child => Ret (put key (VObject child) current)
          | Throw e => Throw e
          end
      | Some _ => Throw TypeError
      end
  end.

Definition setNestedValue (obj : object) (path : string) (v : value)
    : outcome object :=
  let '(keys, lastKey) := pop (split path) in
  assign_at keys lastKey v obj.

(** Every intermediate key is absent or bound to an object. *)
Fixpoint passable (keys : list string) (current : object) : bool :=
  match keys with
  | [] => true
  | key :: keys' =>
      match own key current with
      | None => true
      | Some (VObject next) => passable keys' next
      | Some _ => false
      end
  end.

Definition writable (obj : object) (path : string) : bool :=
  passable (fst (pop (split path))) obj.

(** ** BindingConfig, subscribers, the store *)

Definition BindingTransformer := value -> outcome value.
Definition BindingValidator := value -> outcome value.

Inductive ValidationTiming := onTouch | onSubmit | onChange.

Record BindingConfig := {
  transform : option BindingTransformer;
  validate : option BindingValidator;
  debounce : option number;
  immediate : option bool;
  validationTiming : option ValidationTiming
}.

(** The config [{}] that [bind] takes by default. *)
Definition no_config : BindingConfig :=
  {| transform := None; validate := None; debounce := None;
     immediate := None; validationTiming := None |}.

(** A callback is a function object: [cb_id] is its identity (what a [Set]
    compares), [cb_body] what a call of it does. *)
Record BindingSubscriber := {
  cb_id : nat;
  cb_body : value -> string -> outcome unit
}.

Definition same_callback (a b : BindingSubscriber) : bool :=
  Nat.eqb (cb_id a) (cb_id b).

(** [Set.prototype.add], [delete] and [size] on a set kept as the list of its
    members in insertion order. *)
Definition set_add (cb : BindingSubscriber) (members : list BindingSubscriber) :=
  if existsb (same_callback cb) members then members else members ++ [cb].

Definition set_delete (cb : BindingSubscriber) (members : list BindingSubscriber) :=
  List.filter (fun c => negb (same_callback cb c)) members.

Record BindingStore := {
  state : object;
  subscribers : gmap string nat;      (* path -> address of its Set *)
  configs : gmap string BindingConfig;
  heap : list (list BindingSubscriber) (* the Set objects, by address *)
}.

(** [new BindingStore(initialState)]: [{ ...initialState }]. *)
Definition createBindingStore (initialState : object) : BindingStore :=
  {| state := initialState; subscribers := ∅; configs := ∅; heap := [] |}.

(** What a store operation lets the outside see, in order. *)
Inductive event :=
  | EvTransform (path : string) (arg : value)
  | EvValidate (path : string) (arg : value)
  | EvCommit (path : string) (v : value)
  | EvNotify (id : nat) (v : value) (path : string).

(** ** The monad of store operations

    An operation runs on a store and ends by returning or throwing; either
    way it leaves a store behind and the events it emitted. *)

#[projections(primitive)]
Record Result (A : Type) := {
  res : outcome A;
  final : BindingStore;
  emitted : list event
}.
Arguments res {A} r.
Arguments final {A} r.
Arguments emitted {A} r.

Definition M (A : Type) : Type := BindingStore -> Result A.

Definition ret {A} (a : A) : M A :=
  fun s => {| res := Ret a; final := s; emitted := [] |}.

Definition raise {A} (e : exn) : M A :=
  fun s => {| res := Throw e; final := s; emitted := [] |}.

Definition andThen {A B} (m : M A) (k : A -> M B) : M B :=
  fun s =>
    let r := m s in
    match res r with
    | Ret a =>
        let r' := k a (final r) in
        {| res := res r'; final := final r'; emitted := emitted r ++ emitted r' |}
    | Throw e => {| res := Throw e; final := final r; emitted := emitted r |}
    end.

Notation "'let*' x := m 'in' k" := (andThen m (fun x => k))
  (at level 10, x name, m at level 100, k at level 200).
Notation "'do' m 'then' k" := (andThen m (fun _ => k))
  (at level 10, m at level 100, k at level 200).

Definition gets {A} (f : BindingStore -> A) : M A :=
  fun s => {| res := Ret (f s); final := s; emitted := [] |}.

Definition modify (f : BindingStore -> BindingStore) : M unit :=
  fun s => {| res := Ret tt; final := f s; emitted := [] |}.

(** A call of a user function: the call is seen, then it returns or
    throws. *)
Definition call {A} (ev : event) (o : outcome A) : M A :=
  fun s => {| res := o; final := s; emitted := [ev] |}.

Definition emit (ev : event) : M unit :=
  fun s => {| res := Ret tt; final := s; emitted := [ev] |}.

Definition with_state (t : object) (s : BindingStore) : BindingStore :=
  {| state := t; subscribers := subscribers s; configs := configs s;
     heap := heap s |}.

Definition with_config (path : string) (c : BindingConfig) (s : BindingStore)
    : BindingStore :=
  {| state := state s; subscribers := subscribers s;
     configs := <[path := c]> (configs s); heap := heap s |}.

Definition with_heap (f : list (list BindingSubscriber) -> list (list BindingSubscriber))
    (s : BindingStore) : BindingStore :=
  {| state := state s; subscribers := subscribers s; configs := configs s;
     heap := f (heap s) |}.

Definition with_subscribers (f : gmap string nat -> gmap string nat)
    (s : BindingStore) : BindingStore :=
  {| state := state s; subscribers := f (subscribers s); configs := configs s;
     heap := heap s |}.

(** ** BindingStore methods *)

Definition getValue (s : BindingStore) (path : string) : value :=
  getNestedValue (state s) path.

(** [this.setNestedValue(this.state, path, v)] *)
Definition commit (path : string) (v : value) : M unit :=
  let* t := gets state in
  match setNestedValue t path v with
  | Ret t' => do modify (with_state t') then emit (EvCommit path v)
  | Throw e => raise e
  end.

(** [subscribers.forEach(callback => callback(value, path))] *)
Fixpoint forEach (members : list BindingSubscriber) (v : value) (path : string)
    : M unit :=
  match members with
  | [] => ret tt
  | cb :: rest =>
      do call (EvNotify (cb_id cb) v path) (cb_body cb v path) then
      forEach rest v path
  end.

Definition notifySubscribers (path : string) (v : value) : M unit :=
  let* found := gets (fun s => subscribers s !! path) in
  match found with
  | Some addr =>
      let* members := gets (fun s => default [] (heap s !! addr)) in
      forEach members v path
  | None => ret tt
  end.

(** [result === true] *)
Definition strict_true (result : value) : bool :=
  match result with
  | VBool true => true
  | _ => false
  end.

Definition setValue (path : string) (v : value) : M unit :=
  let* config := gets (fun s => configs s !! path) in
  let* processedValue :=
    match config ≫= transform with
    | Some f => call (EvTransform path v) (f v)
    | None => ret v
    end in
  match config ≫= validate with
  | Some validator =>
      let* result :=
        call (EvValidate path processedValue) (validator processedValue) in
      if negb (strict_true result) then
        (* Still set the value but mark as invalid *)
        do commit path processedValue then
        notifySubscribers path processedValue
      else
        do commit path processedValue then
        notifySubscribers path processedValue
  | None =>
      do commit path processedValue then
      notifySubscribers path processedValue
  end.

(** The function [subscribe] returns: it keeps the path, the set it added
    the callback to, and the callback. *)
Record Unsubscribe := {
  u_path : string;
  u_set : nat;
  u_callback : BindingSubscriber
}.

Definition subscribe (path : string) (callback : BindingSubscriber)
    : M Unsubscribe :=
  let* present := gets (fun s => subscribers s !! path) in
  let* addr :=
    match present with
    | Some addr => ret addr
    | None =>
        (* this.subscribers.set(path, new Set()) *)
        let* fresh := gets (fun s => length (heap s)) in
        do modify (with_heap (fun h => h ++ [[]])) then
        do modify (with_subscribers (insert path fresh)) then
        ret fresh
    end in
  do modify (with_heap (alter (set_add callback) addr)) then
  ret {| u_path := path; u_set := addr; u_callback := callback |}.

(** A call of the function [subscribe] returned. *)
Definition unsubscribe (u : Unsubscribe) : M unit :=
  do modify (with_heap (alter (set_delete (u_callback u)) (u_set u))) then
  let* size := gets (fun s => length (default [] (heap s !! u_set u))) in
  if Nat.eqb size 0 then modify (with_subscribers (delete (u_path u)))
  else ret tt.

Definition getState (s : BindingStore) : object := state s.

(** [batch(updates) { updates(); }] *)
Definition batch (updates : M unit) : M unit := updates.

(** ** Binding *)

Record Binding := {
  Binding_path : string;
  Binding_config : BindingConfig   (* the config the getters closed over *)
}.

Definition bind (path : string) (config : BindingConfig) : M Binding :=
  do modify (with_config path config) then
  ret {| Binding_path := path; Binding_config := config |}.

Definition Binding_value (b : Binding) : M value :=
  gets (fun s => getValue s (Binding_path b)).

Definition Binding_isValid (b : Binding) : M bool :=
  let* v := gets (fun s => getValue s (Binding_path b)) in
  match validate (Binding_config b) with
  | None => ret true
  | Some validator =>
      let* result := call (EvValidate (Binding_path b) v) (validator v) in
      ret (strict_true result)
  end.

(** [string | undefined] is [option string]. *)
Definition Binding_error (b : Binding) : M (option string) :=
  let* v := gets (fun s => getValue s (Binding_path b)) in
  match validate (Binding_config b) with
  | None => ret None
  | Some validator =>
      let* result := call (EvValidate (Binding_path b) v) (validator v) in
      ret (match result with VString message => Some message | _ => None end)
  end.

Definition Binding_setValue (b : Binding) (v : value) : M unit :=
  setValue (Binding_path b) v.

Definition Binding_subscribe (b : Binding) (callback : BindingSubscriber)
    : M Unsubscribe :=
  subscribe (Binding_path b) callback.

Definition Binding_transform (b : Binding) (transformer : BindingTransformer)
    : M Binding :=
  let transformedPath := Binding_path b +:+ "_transformed" in
  let transformedConfig :=
    {| transform := Some (fun val => transformer val);
       validate := None;
       debounce := debounce (Binding_config b);
       immediate := immediate (Binding_config b);
       validationTiming := validationTiming (Binding_config b) |} in
  bind transformedPath transformedConfig.

(** ** The input adapter of [useBind] *)

Inductive Platform := desktop | android | ios | other.

Record InputContext := {
  isComposing : bool;
  lastValue : string;
  selectionStart : option nat;
  selectionEnd : option nat;
  platform : Platform;
  touched : bool;
  submitAttempted : bool
}.

(** The elements the handlers are attached to. An input or a textarea has
    a [selectionStart] property (null on the input types without a text
    selection); a select has none. *)
Inductive Element := HTMLInputElement | HTMLTextAreaElement | HTMLSelectElement.

Record Target := {
  element : Element;
  target_type : string;
  target_value : string;
  target_checked : bool;
  target_selectionStart : option nat;
  target_selectionEnd : option nat
}.

(** ['selectionStart' in target] *)
Definition has_selectionStart (target : Target) : bool :=
  match element target with
  | HTMLSelectElement => false
  | _ => true
  end.

Definition platform_eqb (p q : Platform) : bool :=
  match p, q with
  | desktop, desktop | android, android | ios, ios | other, other => true
  | _, _ => false
  end.

(** A number is falsy when it is NaN or a zero. *)
Definition falsy (n : number) : bool := is_nan n || is_zero n.

(** [n || 0] *)
Definition or_zero (n : number) : number := if falsy n then 0%float else n.

(** [useRef<InputContext>({ ... })]: [text] is [String(value || '')] and
    [p] what [detectPlatform()] answered when the hook first ran. *)
Definition initialContext (text : string) (p : Platform) : InputContext :=
  {| isComposing := false; lastValue := text;
     selectionStart := None; selectionEnd := None;
     platform := p; touched := false; submitAttempted := false |}.

Definition set_touched (context : InputContext) : InputContext :=
  {| isComposing := isComposing context; lastValue := lastValue context;
     selectionStart := selectionStart context;
     selectionEnd := selectionEnd context;
     platform := platform context; touched := true;
     submitAttempted := submitAttempted context |}.

Definition set_isComposing (b : bool) (text : string) (context : InputContext)
    : InputContext :=
  {| isComposing := b; lastValue := text;
     selectionStart := selectionStart context;
     selectionEnd := selectionEnd context;
     platform := platform context; touched := touched context;
     submitAttempted := submitAttempted context |}.

Definition set_lastValue (text : string) (context : InputContext) : InputContext :=
  set_isComposing (isComposing context) text context.

Definition set_selection (target : Target) (context : InputContext)
    : InputContext :=
  {| isComposing := isComposing context; lastValue := target_value target;
     selectionStart := target_selectionStart target;
     selectionEnd := target_selectionEnd target;
     platform := platform context; touched := touched context;
     submitAttempted := submitAttempted context |}.

Definition shouldIgnoreComposition (context : InputContext) (target : Target)
    : bool :=
  if negb (has_selectionStart target) then false
  else if platform_eqb (platform context) android then
    isComposing context && String.eqb (target_value target) (lastValue context)
  else if platform_eqb (platform context) ios then false
  else isComposing context.

Definition shouldShowValidation (config : option BindingConfig)
    (context : InputContext) : bool :=
  match default onTouch (config ≫= validationTiming) with
  | onChange => true
  | onSubmit => submitAttempted context
  | onTouch => touched context
  end.

Section Handlers.

(** The host's [parseFloat]. *)
Variable parseFloat : string -> number.

(** [transformers.toNumber] *)
Definition toNumber (text : string) : number :=
  let num := parseFloat text in
  if is_nan num then 0%float else num.

(** A handler answers with the context it leaves and, when it ends by
    calling [binding.setValue], the argument of that call: the call is
    the last thing each handler does. [bindingValue] is [binding.value]
    at the time of the event. *)
Definition handleChange (context : InputContext) (target : Target)
    (bindingValue : value) : InputContext * option value :=
  let context := if negb (touched context) then set_touched context else context in
  if shouldIgnoreComposition context target then (context, None)
  else
    let newValue :=
      if String.eqb (target_type target) "checkbox" then
        VBool (target_checked target)
      else if String.eqb (target_type target) "radio" then
        if target_checked target then VString (target_value target)
        else bindingValue
      else if String.eqb (target_type target) "number" then
        let numValue := parseFloat (target_value target) in
        VNumber (if is_nan numValue then 0%float else numValue)
      else VString (target_value target) in
    let context :=
      if has_selectionStart target then set_selection target context
      else context in
    (context, Some newValue).

Definition handleCompositionStart (context : InputContext) (target : Target)
    : InputContext * option value :=
  (set_isComposing true (target_value target) context, None).

Definition handleCompositionEnd (context : InputContext) (target : Target)
    : InputContext * option value :=
  let finalValue :=
    if String.eqb (target_type target) "number" then
      VNumber (or_zero (parseFloat (target_value target)))
    else VString (target_value target) in
  (set_isComposing false (target_value target) context, Some finalValue).

Definition handleInput (context : InputContext) (target : Target)
    : InputContext * option value :=
  let context := if negb (touched context) then set_touched context else context in
  if negb (isComposing context) then
    let newValue :=
      if String.eqb (target_type target) "number" then
        VNumber (or_zero (parseFloat (target_value target)))
      else VString (target_value target) in
    (* newValue !== context.lastValue: a number never equals a string *)
    let changed :=
      match newValue with
      | VString text => negb (String.eqb text (lastValue context))
      | _ => true
      end in
    if changed then
      (set_lastValue (target_value target) context, Some newValue)
    else (context, None)
  else (context, None).

Definition handleFocus (context : InputContext) : InputContext * option value :=
  (if negb (touched context) then set_touched context else context, None).

Definition handleBlur (context : InputContext) : InputContext * option value :=
  (set_touched context, None).

Definition markSubmitAttempted (context : InputContext)
    : InputContext * option value :=
  ({| isComposing := isComposing context; lastValue := lastValue context;
      selectionStart := selectionStart context;
      selectionEnd := selectionEnd context;
      platform := platform context; touched := touched context;
      submitAttempted := true |}, None).

(** What reaches an adapter. *)
Inductive InputEvent :=
  | change (target : Target)
  | input (target : Target)
  | compositionstart (target : Target)
  | compositionend (target : Target)
  | focus
  | blur
  | submitAttempt.

Definition handle (context : InputContext) (ev : InputEvent)
    (bindingValue : value) : InputContext * option value :=
  match ev with
  | change target => handleChange context target bindingValue
  | input target => handleInput context target
  | compositionstart target => handleCompositionStart context target
  | compositionend target => handleCompositionEnd context target
  | focus => handleFocus context
  | blur => handleBlur context
  | submitAttempt => markSubmitAttempted context
  end.

(** An event delivered to the adapter of binding [b] over a store: the
    handler runs, then its [setValue] call, if it makes one. *)
Definition deliver (b : Binding) (context : InputContext) (ev : InputEvent)
    (s : BindingStore) : InputContext * Result unit :=
  let '(context', issued) := handle context ev (getValue s (Binding_path b)) in
  (context',
   match issued with
   | Some v => Binding_setValue b v s
   | None => ret tt s
   end).

(** The adapter's context after a run of events; the binding's value is
    looked up in the store as each event finds it. *)
Fixpoint deliver_all (b : Binding) (context : InputContext)
    (evs : list InputEvent) (s : BindingStore) : InputContext * BindingStore :=
  match evs with
  | [] => (context, s)
  | ev :: evs' =>
      let '(context', r) := deliver b context ev s in
      deliver_all b context' evs' (final r)
  end.

End Handlers.

(** ** Observations *)

(** The subscribers [notifySubscribers] finds for a path. *)
Definition members_of (s : BindingStore) (path : string)
    : list BindingSubscriber :=
  match subscribers s !! path with
  | Some addr => default [] (heap s !! addr)
  | None => []
  end.

(** The arguments of the calls of [cb] in a trace, in order. *)
Definition invocations (cb : BindingSubscriber) (tr : list event)
    : list (value * string) :=
  flat_map (fun ev =>
    match ev with
    | EvNotify id v path => if Nat.eqb (cb_id cb) id then [(v, path)] else []
    | _ => []
    end) tr.

(** The arguments the transform, respectively the validator, of [path] was
    called with in a trace. *)
Definition transform_calls (path : string) (tr : list event) : list value :=
  flat_map (fun ev =>
    match ev with
    | EvTransform p arg => if String.eqb p path then [arg] else []
    | _ => []
    end) tr.

Definition validate_calls (path : string) (tr : list event) : list value :=
  flat_map (fun ev =>
    match ev with
    | EvValidate p arg => if String.eqb p path then [arg] else []
    | _ => []
    end) tr.

(** The members of a set that [forEach] visits before [cb]. *)
Fixpoint ahead_of (cb : BindingSubscriber) (members : list BindingSubscriber)
    : list BindingSubscriber :=
  match members with
  | [] => []
  | c :: rest => if same_callback cb c then [] else c :: ahead_of cb rest
  end.

(** What [setValue] makes of [v] before it writes: the transform's answer,
    or [v] itself. *)
Definition transformed (s : BindingStore) (path : string) (v : value)
    : outcome value :=
  match configs s !! path ≫= transform with
  | Some f => f v
  | None => Ret v
  end.

(** The validator of [path], if there is one, returns on [v]. *)
Definition validator_returns (s : BindingStore) (path : string) (v : value)
    : bool :=
  match configs s !! path ≫= validate with
  | Some validator =>
      match validator v with
      | Ret _ => true
      | Throw _ => false
      end
  | None => true
  end.

(** The events of [setValue] that come before its write. *)
Definition before_write (s : BindingStore) (path : string) (v pv : value)
    : list event :=
  match configs s !! path ≫= transform with
  | Some _ => [EvTransform path v]
  | None => []
  end ++
  match configs s !! path ≫= validate with
  | Some _ => [EvValidate path pv]
  | None => []
  end.

(** The registry as the store's methods keep it: a set lists a callback once,
    and a path's address is one of the heap. *)
Record well_formed (s : BindingStore) : Prop := {
  wf_members : forall addr members,
    heap s !! addr = Some members -> NoDup (cb_id <$> members);
  wf_address : forall path addr,
    subscribers s !! path = Some addr -> addr < length (heap s)
}.

(** [validators.required] *)
Definition required (v : value) : outcome value :=
  match v with
  | VNull | VUndefined | VString "" => Ret (VString "This field is required")
  | _ => Ret (VBool true)
  end.

(** A callback [updates] that performs the writes of a list, in order. *)
Fixpoint perform (writes : list (string * value)) : M unit :=
  match writes with
  | [] => ret tt
  | (path, v) :: rest => do setValue path v then perform rest
  end.

(** The trace of writes none of whose notifications is deferred: each
    write's own events, its notifications included, before the next write
    begins. *)
Fixpoint immediate_trace (writes : list (string * value)) (s : BindingStore)
    : list event :=
  match writes with
  | [] => []
  | (path, v) :: rest =>
      let r := setValue path v s in
      emitted r ++
      match res r with
      | Ret _ => immediate_trace rest (final r)
      | Throw _ => []
      end
  end.

(** ** Stores, callbacks and configs used as instances *)

(** A callback that returns, and one that throws. *)
Definition listener (id : nat) : BindingSubscriber :=
  {| cb_id := id; cb_body := fun _ _ => Ret tt |}.

Definition failing_listener (id : nat) : BindingSubscriber :=
  {| cb_id := id; cb_body := fun _ _ => Throw (UserThrow (VString "listener failed")) |}.

(** A transform on strings, the identity elsewhere. *)
Definition exclaim : BindingTransformer :=
  fun v =>
    match v with
    | VString text => Ret (VString (text +:+ "!"))
    | _ => Ret v
    end.


(** [createBindingStore({ user: null })] *)
Definition null_user_store : BindingStore :=
  createBindingStore [("user", VNull)].

(** [createBindingStore({ user: {} })] after
    [bind('user.name', { transform: exclaim, validate: required })]. *)
Definition profile_store : BindingStore :=
  final (bind "user.name"
           {| transform := Some exclaim; validate := Some required;
              debounce := None; immediate := None; validationTiming := None |}
           (createBindingStore [("user", VObject [])])).




(** [profile_store] once [listener 1] has subscribed to 'user.name'. *)
Definition watched_store : BindingStore :=
  final (subscribe "user.name" (listener 1) profile_store).

(** A stand-in for the host's [parseFloat] on the instances below: the
    number written by the leading decimal digits of the text, NaN when it
    has none. *)
Definition digit (c : ascii) : option number :=
  match c with
  | "0"%char => Some 0%float | "1"%char => Some 1%float
  | "2"%char => Some 2%float | "3"%char => Some 3%float
  | "4"%char => Some 4%float | "5"%char => Some 5%float
  | "6"%char => Some 6%float | "7"%char => Some 7%float
  | "8"%char => Some 8%float | "9"%char => Some 9%float
  | _ => None
  end.

Fixpoint leading_digits (text : string) (acc : number) : number :=
  match text with
  | String c rest =>
      match digit c with
      | Some d => leading_digits rest (acc * 10 + d)%float
      | None => acc
      end
  | EmptyString => acc
  end.

Definition digits_parseFloat (text : string) : number :=
  match text with
  | String c rest =>
      match digit c with
      | Some d => leading_digits rest d
      | None => nan
      end
  | EmptyString => nan
  end.

(** A text input holding [text], the caret at its end. *)
Definition text_input (text : string) : Target :=
  {| element := HTMLInputElement; target_type := "text";
     target_value := text; target_checked := false;
     target_selectionStart := Some (String.length text);
     target_selectionEnd := Some (String.length text) |}.

(** A context in the middle of a composition that began on [text]. *)
Definition composing (p : Platform) (text : string) : InputContext :=
  {| isComposing := true; lastValue := text;
     selectionStart := None; selectionEnd := None;
     platform := p; touched := true; submitAttempted := false |}.

(** [bind('title', { transform: exclaim })] on an empty store, and the
    transformer that returns its argument. *)
Definition exclaim_config : BindingConfig :=
  {| transform := Some exclaim; validate := None; debounce := None;
     immediate := None; validationTiming := None |}.

Definition title : Binding :=
  {| Binding_path := "title"; Binding_config := exclaim_config |}.

Definition title_store : BindingStore :=
  final (bind "title" exclaim_config (createBindingStore [])).

Definition keep : BindingTransformer := fun v => Ret v.

(** ** Paths side by side *)



(** A value that is no mapping. *)
Definition is_object (v : value) : bool :=
  match v with
  | VObject _ => true
  | _ => false
  end.

(** The read of [keys] from [current] never asks a boolean, a number or a
    string for a property (the language would answer with what the boxed
    primitive has, [optional_get] answers undefined): it goes through
    mappings until the keys end or it meets null or undefined. *)
Fixpoint through_mappings (keys : list string) (current : value) : bool :=
  match keys with
  | [] => true
  | key :: keys' =>
      match current with
      | VObject props => through_mappings keys' (default VUndefined (own key props))
      | VNull | VUndefined => true
      | _ => false
      end
  end.

Definition plain_read (s : BindingStore) (path : string) : bool :=
  own_names path && through_mappings (split path) (VObject (state s)).

(** The calls [forEach] makes when it gets through [members]. *)
Definition notifications (members : list BindingSubscriber) (v : value)
    (path : string) : list event :=
  map (fun c => EvNotify (cb_id c) v path) members.

(** [profile_store] with [listener 1], [failing_listener 2] and [listener 3]
    subscribed to 'user.name', in that order. *)
Definition crowded_store : BindingStore :=
  final (subscribe "user.name" (listener 3)
    (final (subscribe "user.name" (failing_listener 2)
      (final (subscribe "user.name" (listener 1) profile_store))))).

(** [createBindingStore({})] after
    [bind('age', { transform: _ => { throw ... } })] and a subscription. *)
Definition throwing_transform : BindingTransformer :=
  fun _ => Throw (UserThrow (VString "transform failed")).

Definition fragile_store : BindingStore :=
  final (subscribe "age" (listener 1)
    (final (bind "age"
              {| transform := Some throwing_transform; validate := Some required;
                 debounce := None; immediate := None; validationTiming := None |}
              (createBindingStore [("age", VNumber 30%float)])))).

(** [createBindingStore({})] with [listener 1] subscribed to 'user'. *)
Definition parent_watch_store : BindingStore :=
  final (subscribe "user" (listener 1) (createBindingStore [])).

(** What [validators.required] rejects. *)
Definition blank (v : value) : bool :=
  match v with
  | VNull | VUndefined | VString "" => true
  | _ => false
  end.

(** The store of the example [stale_unsubscribe_drops_the_path] before the
    second call of the unsubscribe function, and that function. *)
Definition first_unsubscribe : Unsubscribe :=
  {| u_path := "a"; u_set := 0; u_callback := listener 1 |}.

Definition resubscribed_store : BindingStore :=
  final (subscribe "a" (listener 1)
    (final (unsubscribe first_unsubscribe
      (final (subscribe "a" (listener 1) (createBindingStore [])))))).

(** ** Runs of events *)

(** The events whose handlers mark the field as touched, and the one that
    marks a submit attempt. *)
Definition touches (ev : InputEvent) : bool :=
  match ev with
  | change _ | input _ | focus | blur => true
  | _ => false
  end.

Definition submits (ev : InputEvent) : bool :=
  match ev with
  | submitAttempt => true
  | _ => false
  end.

(** An event that can come between compositionstart and compositionend on a
    text control: anything but compositionend, a change event being one of
    a control with a selection range. *)
Definition during_composition (ev : InputEvent) : bool :=
  match ev with
  | change target => has_selectionStart target
  | compositionend _ => false
  | _ => true
  end.

Section Runs.

Variable parseFloat : string -> number.

(** The arguments of the [setValue] calls made while a run of events is
    delivered, in order. *)
Fixpoint deliver_issued (b : Binding) (context : InputContext)
    (evs : list InputEvent) (s : BindingStore) : list value :=
  match evs with
  | [] => []
  | ev :: evs' =>
      match handle parseFloat context ev (getValue s (Binding_path b)) with
      | (_, Some v) => [v]
      | (_, None) => []
      end ++
      let '(context', r) := deliver parseFloat b context ev s in
      deliver_issued b context' evs' (final r)
  end.

End Runs.

(** A number field holding [text]. *)
Definition number_input (text : string) : Target :=
  {| element := HTMLInputElement; target_type := "number";
     target_value := text; target_checked := false;
     target_selectionStart := None; target_selectionEnd := None |}.

(** ** detectPlatform *)

(** [/word/.test(text)] for a pattern that is a plain word. *)
Definition test (word text : string) : bool :=
  match String.index 0 word text with
  | Some _ => true
  | None => false
  end.

(** [word] stands in [text] at some position. *)
Definition occurs (word text : string) : Prop :=
  exists position, String.substring position (String.length word) text = word.

Section Platform.

(** The host's [String.prototype.toLowerCase]. *)
Variable toLowerCase : string -> string.

(** [navigator] is [None] where [typeof navigator === 'undefined'], and the
    [navigator.userAgent] string otherwise. *)
Definition detectPlatform (navigator : option string) : Platform :=
  match navigator with
  | None => other
  | Some agent =>
      let userAgent := toLowerCase agent in
      if test "android" userAgent then android
      else if test "iphone" userAgent || test "ipad" userAgent
              || test "ipod" userAgent then ios
      else if test "windows" userAgent || test "mac" userAgent
              || test "linux" userAgent then desktop
      else other
  end.

End Platform.

(** ** useFormValidation *)

(** What the hook reads of a binding, and the state it keeps. *)
Record BindingView := {
  view_isValid : bool;
  view_error : option string
}.

Record ValidationState := {
  form_isValid : bool;
  form_errors : list string;
  form_firstError : option string
}.

(** [useState({ isValid: true, errors: [], firstError: undefined })] *)
Definition initialValidationState : ValidationState :=
  {| form_isValid := true; form_errors := []; form_firstError := None |}.

(** [!!error]: an error that is a non-empty string. *)
Definition truthy_error (error : option string) : option string :=
  match error with
  | Some "" | None => None
  | Some message => Some message
  end.

(** The state the effect sets for [bindings]. *)
Definition useFormValidation (bindings : list BindingView) : ValidationState :=
  let errors := omap (fun binding => truthy_error (view_error binding)) bindings in
  {| form_isValid := Nat.eqb (length errors) 0;
     form_errors := errors;
     form_firstError := head errors |}.

(** ** Calls of the store's methods *)

Inductive StoreCall :=
  | CallBind (path : string) (config : BindingConfig)
  | CallSetValue (path : string) (v : value)
  | CallSubscribe (path : string) (callback : BindingSubscriber)
  | CallUnsubscribe (u : Unsubscribe).

(** The store a call leaves, whether it returned or threw. *)
Definition after_call (c : StoreCall) (s : BindingStore) : BindingStore :=
  match c with
  | CallBind path config => final (bind path config s)
  | CallSetValue path v => final (setValue path v s)
  | CallSubscribe path callback => final (subscribe path callback s)
  | CallUnsubscribe u => final (unsubscribe u s)
  end.

Definition after_calls (calls : list StoreCall) (s : BindingStore) : BindingStore :=
  fold_left (fun s c => after_call c s) calls s.

(** ** What a pass of [forEach] amounts to *)




(** ** Stores that hold no object twice

    The tree of the embedding has no object identity; the program's has: an
    object handed to the store, in the initial state or as a written value,
    can be reachable by two paths, and a write through one is then seen
    through the other. A store whose initial state holds primitives only
    and whose writes stored primitives only has no such object: its
    mappings are the ones [setNestedValue] created, each under one key. *)




(** ** The monad's equations *)

Lemma andThen_ret {A B} (a : A) (k : A -> M B) s : andThen (ret a) k s = k a s.
Proof. reflexivity. Qed.

Lemma andThen_gets {A B} (f : BindingStore -> A) (k : A -> M B) s :
  andThen (gets f) k s = k (f s) s.
Proof. reflexivity. Qed.

Lemma andThen_modify {B} f (k : unit -> M B) s :
  andThen (modify f) k s = k tt (f s).
Proof. reflexivity. Qed.

Lemma andThen_raise {A B} e (k : A -> M B) s :
  andThen (raise e) k s = raise e s.
Proof. reflexivity. Qed.

(** ** PathResolver: reading back what was written *)

Lemma own_put_eq key v props : own key (put key v props) = Some v.
Proof.
  induction props as [|[k w] rest IH]; simpl.
  - by rewrite String.eqb_refl.
  - destruct (String.eqb k key) eqn:E; simpl; rewrite E; auto.
Qed.


Lemma split_nonempty path : split path <> [].
Proof.
  destruct path as [|c rest]; simpl; [discriminate|].
  destruct (Ascii.eqb c "."); [discriminate|].
  destruct (split rest); discriminate.
Qed.

Lemma split_pop path :
  split path = fst (pop (split path)) ++ [snd (pop (split path))].
Proof. unfold pop; simpl. apply app_removelast_last, split_nonempty. Qed.

Lemma assign_at_read keys : forall lastKey v current t',
  assign_at keys lastKey v current = Ret t' ->
  fold_left optional_get (keys ++ [lastKey]) (VObject t') = v.
Proof.
  induction keys as [|key keys' IH]; intros lastKey v current t' H; simpl in *.
  - injection H as <-. by rewrite own_put_eq.
  - destruct (own key current) as [[| | | | |next]|] eqn:E; try discriminate.
    + destruct (assign_at keys' lastKey v next) as [child|] eqn:A; [|discriminate].
      injection H as <-. rewrite own_put_eq. simpl. eauto.
    + destruct (assign_at keys' lastKey v []) as [child|] eqn:A; [|discriminate].
      injection H as <-. rewrite own_put_eq. simpl. eauto.
Qed.

Lemma setNestedValue_read obj path v t' :
  setNestedValue obj path v = Ret t' -> getNestedValue t' path = v.
Proof.
  unfold setNestedValue, getNestedValue. intros H.
  rewrite (split_pop path). destruct (pop (split path)) as [keys lastKey].
  simpl. eapply assign_at_read, H.
Qed.

Lemma passable_assign keys : forall lastKey v current,
  passable keys current = true <->
  exists t', assign_at keys lastKey v current = Ret t'.
Proof.
  induction keys as [|key keys' IH]; intros lastKey v current; simpl.
  - split; eauto.
  - destruct (own key current) as [[| | | | |next]|] eqn:E;
      try (split; [discriminate | intros [? ?]; discriminate]).
    + rewrite (IH lastKey v next). split.
      * intros [t' ->]. eauto.
      * intros [t' H]. destruct (assign_at keys' lastKey v next); [eauto|discriminate].
    + split; [intros _|done].
      destruct (proj1 (IH lastKey v []) ) as [t' ->]; [|eauto].
      clear. induction keys' as [|k ks IHk]; simpl; auto.
Qed.

Lemma writable_setNestedValue obj path v :
  writable obj path = true <-> exists t', setNestedValue obj path v = Ret t'.
Proof.
  unfold writable, setNestedValue. destruct (pop (split path)) as [keys lastKey].
  apply passable_assign.
Qed.

Lemma assign_at_error keys : forall lastKey v current e,
  assign_at keys lastKey v current = Throw e -> e = TypeError.
Proof.
  induction keys as [|key keys' IH]; intros lastKey v current e; simpl.
  - discriminate.
  - destruct (own key current) as [[| | | | |next]|]; try congruence.
    + destruct (assign_at keys' lastKey v next) eqn:A; [discriminate|].
      intros [= <-]. eauto.
    + destruct (assign_at keys' lastKey v []) eqn:A; [discriminate|].
      intros [= <-]. eauto.
Qed.

(** ** The store: what a [setValue] call does *)

Lemma forEach_final members v path : forall s,
  final (forEach members v path s) = s.
Proof.
  induction members as [|cb rest IH]; intros s; simpl; [done|].
  unfold andThen, call; simpl. destruct (cb_body cb v path); simpl; auto.
Qed.

Lemma notifySubscribers_forEach path v s :
  notifySubscribers path v s = forEach (members_of s path) v path s.
Proof.
  unfold notifySubscribers, members_of. rewrite andThen_gets.
  destruct (subscribers s !! path); reflexivity.
Qed.

Lemma commit_returns path v s t' :
  setNestedValue (state s) path v = Ret t' ->
  commit path v s =
    {| res := Ret tt; final := with_state t' s; emitted := [EvCommit path v] |}.
Proof. intros H. unfold commit. rewrite andThen_gets, H. reflexivity. Qed.

Lemma commit_throws path v s e :
  setNestedValue (state s) path v = Throw e ->
  commit path v s = raise e s.
Proof. intros H. unfold commit. rewrite andThen_gets, H. reflexivity. Qed.

Lemma andThen_call_ret {A B} ev (a : A) (k : A -> M B) s :
  andThen (call ev (Ret a)) k s =
    {| res := res (k a s); final := final (k a s);
       emitted := ev :: emitted (k a s) |}.
Proof. reflexivity. Qed.

Lemma andThen_call_throw {A B} ev e (k : A -> M B) s :
  andThen (call ev (Throw e)) k s =
    {| res := Throw e; final := s; emitted := [ev] |}.
Proof. reflexivity. Qed.

Lemma write_and_notify path pv s t' :
  setNestedValue (state s) path pv = Ret t' ->
  (do commit path pv then notifySubscribers path pv) s =
    {| res := res (forEach (members_of s path) pv path (with_state t' s));
       final := with_state t' s;
       emitted := EvCommit path pv ::
                  emitted (forEach (members_of s path) pv path (with_state t' s)) |}.
Proof.
  intros HW. unfold andThen. rewrite (commit_returns _ _ _ _ HW).
  cbn -[notifySubscribers forEach members_of with_state].
  rewrite notifySubscribers_forEach, forEach_final. reflexivity.
Qed.

Lemma setValue_commits s path v pv t' :
  transformed s path v = Ret pv ->
  validator_returns s path pv = true ->
  setNestedValue (state s) path pv = Ret t' ->
  setValue path v s =
    {| res := res (forEach (members_of s path) pv path (with_state t' s));
       final := with_state t' s;
       emitted := before_write s path v pv ++
                  EvCommit path pv ::
                  emitted (forEach (members_of s path) pv path (with_state t' s)) |}.
Proof.
  unfold transformed, validator_returns, before_write, setValue.
  intros HT HV HW. rewrite andThen_gets.
  destruct (configs s !! path) as [c|]; cbn [mbind option_bind] in *.
  - destruct (transform c) as [f|]; destruct (validate c) as [validator|].
    + rewrite HT, andThen_call_ret. destruct (validator pv) as [r|]; [|discriminate].
      rewrite andThen_call_ret. destruct (negb (strict_true r));
        rewrite (write_and_notify _ _ _ _ HW); reflexivity.
    + rewrite HT, andThen_call_ret, (write_and_notify _ _ _ _ HW); reflexivity.
    + injection HT as ->. rewrite andThen_ret.
      destruct (validator pv) as [r|]; [|discriminate].
      rewrite andThen_call_ret. destruct (negb (strict_true r));
        rewrite (write_and_notify _ _ _ _ HW); reflexivity.
    + injection HT as ->. rewrite andThen_ret, (write_and_notify _ _ _ _ HW); reflexivity.
  - injection HT as ->. rewrite andThen_ret, (write_and_notify _ _ _ _ HW); reflexivity.
Qed.

Lemma write_throws path pv s e :
  setNestedValue (state s) path pv = Throw e ->
  (do commit path pv then notifySubscribers path pv) s = raise e s.
Proof.
  intros HW. unfold andThen. rewrite (commit_throws _ _ _ _ HW). reflexivity.
Qed.

Lemma setValue_transform_throws s path v e :
  transformed s path v = Throw e ->
  setValue path v s =
    {| res := Throw e; final := s; emitted := [EvTransform path v] |}.
Proof.
  unfold transformed, setValue. intros HT. rewrite andThen_gets.
  destruct (configs s !! path) as [c|]; cbn [mbind option_bind] in *;
    [|discriminate].
  destruct (transform c) as [f|]; [|discriminate].
  rewrite HT. reflexivity.
Qed.

Lemma setValue_validator_throws s path v pv validator e :
  transformed s path v = Ret pv ->
  configs s !! path ≫= validate = Some validator ->
  validator pv = Throw e ->
  setValue path v s =
    {| res := Throw e; final := s; emitted := before_write s path v pv |}.
Proof.
  unfold transformed, before_write, setValue. intros HT HC HV.
  rewrite andThen_gets.
  destruct (configs s !! path) as [c|]; cbn [mbind option_bind] in *;
    [|discriminate].
  rewrite HC. destruct (transform c) as [f|].
  - rewrite HT, andThen_call_ret, HV. reflexivity.
  - injection HT as ->. rewrite andThen_ret, HV. reflexivity.
Qed.

Lemma setValue_write_throws s path v pv e :
  transformed s path v = Ret pv ->
  validator_returns s path pv = true ->
  setNestedValue (state s) path pv = Throw e ->
  setValue path v s =
    {| res := Throw e; final := s; emitted := before_write s path v pv |}.
Proof.
  unfold transformed, validator_returns, before_write, setValue.
  intros HT HV HW. rewrite andThen_gets.
  destruct (configs s !! path) as [c|]; cbn [mbind option_bind] in *.
  - destruct (transform c) as [f|]; destruct (validate c) as [validator|].
    + rewrite HT, andThen_call_ret. destruct (validator pv) as [r|]; [|discriminate].
      rewrite andThen_call_ret. destruct (negb (strict_true r));
        rewrite (write_throws _ _ _ _ HW); reflexivity.
    + rewrite HT, andThen_call_ret, (write_throws _ _ _ _ HW); reflexivity.
    + injection HT as ->. rewrite andThen_ret.
      destruct (validator pv) as [r|]; [|discriminate].
      rewrite andThen_call_ret. destruct (negb (strict_true r));
        rewrite (write_throws _ _ _ _ HW); reflexivity.
    + injection HT as ->. rewrite andThen_ret, (write_throws _ _ _ _ HW); reflexivity.
  - injection HT as ->. rewrite andThen_ret, (write_throws _ _ _ _ HW); reflexivity.
Qed.

(** Whatever happens, [setValue] leaves the registry and the configs as
    they were. *)
Lemma setValue_registry s path v :
  subscribers (final (setValue path v s)) = subscribers s /\
  heap (final (setValue path v s)) = heap s /\
  configs (final (setValue path v s)) = configs s.
Proof.
  destruct (transformed s path v) as [pv|e] eqn:HT.
  - destruct (validator_returns s path pv) eqn:HV.
    + destruct (setNestedValue (state s) path pv) as [t'|e] eqn:HW.
      * rewrite (setValue_commits _ _ _ _ _ HT HV HW). done.
      * rewrite (setValue_write_throws _ _ _ _ _ HT HV HW). done.
    + unfold validator_returns in HV.
      destruct (configs s !! path ≫= validate) as [validator|] eqn:HC; [|discriminate].
      destruct (validator pv) as [r|e] eqn:HR; [discriminate|].
      rewrite (setValue_validator_throws _ _ _ _ _ _ HT HC HR). done.
  - rewrite (setValue_transform_throws _ _ _ _ HT). done.
Qed.

(** ** Read after write *)

Lemma transform_calls_app path tr tr' :
  transform_calls path (tr ++ tr') =
  transform_calls path tr ++ transform_calls path tr'.
Proof. apply flat_map_app. Qed.

Lemma transform_calls_commit path p v tr :
  transform_calls path (EvCommit p v :: tr) = transform_calls path tr.
Proof. reflexivity. Qed.

Lemma forEach_only_notifies members v path : forall s,
  transform_calls path (emitted (forEach members v path s)) = [] /\
  validate_calls path (emitted (forEach members v path s)) = [].
Proof.
  induction members as [|cb rest IH]; intros s; [done|].
  simpl. unfold andThen, call; simpl.
  destruct (cb_body cb v path); simpl; [apply IH|done].
Qed.

(** C1, as the code has it: when every intermediate segment of P is absent
    from the tree or holds a mapping, the transform of P (if any) returns
    and its validator (if any) returns, then after setValue(P, V) getValue(P)
    is V when P has no transform and T(V) when it has the transform T, which
    setValue called exactly once, on V. ([transformed] is the transform's
    answer, or V itself without a transform; P uses no name inherited from
    Object.prototype.) *)
Theorem C1_written_value_is_read_back s path v pv :
  own_names path = true ->
  writable (state s) path = true ->
  transformed s path v = Ret pv ->
  validator_returns s path pv = true ->
  getValue (final (setValue path v s)) path = pv /\
  transform_calls path (emitted (setValue path v s)) =
    match configs s !! path ≫= transform with
    | Some _ => [v]
    | None => []
    end.
Proof.
  intros _ HW HT HV.
  apply (writable_setNestedValue _ _ pv) in HW as [t' HW].
  rewrite (setValue_commits _ _ _ _ _ HT HV HW). cbn [final emitted].
  split.
  - unfold getValue. cbn [state with_state]. eapply setNestedValue_read, HW.
  - rewrite transform_calls_app, transform_calls_commit.
    rewrite (proj1 (forEach_only_notifies _ _ _ _)), app_nil_r.
    unfold before_write. rewrite transform_calls_app.
    destruct (configs s !! path ≫= transform);
      destruct (configs s !! path ≫= validate); simpl;
      rewrite ?String.eqb_refl; reflexivity.
Qed.

Lemma C1_written_value_is_read_back_witness :
  own_names "user.name" = true /\
  writable (state profile_store) "user.name" = true /\
  transformed profile_store "user.name" (VString "Ada") = Ret (VString "Ada!") /\
  validator_returns profile_store "user.name" (VString "Ada!") = true /\
  getValue (final (setValue "user.name" (VString "Ada") profile_store)) "user.name"
    = VString "Ada!" /\
  transform_calls "user.name"
    (emitted (setValue "user.name" (VString "Ada") profile_store)) =
    match configs profile_store !! "user.name" ≫= transform with
    | Some _ => [VString "Ada"]
    | None => []
    end.
Proof.
  split; [reflexivity|]. split; [reflexivity|].
  split; [reflexivity|]. split; [reflexivity|].
  apply (C1_written_value_is_read_back profile_store "user.name"
           (VString "Ada") (VString "Ada!")); reflexivity.
Defined.

(** C1 as stated fails: on the store made from [{ user: null }], with no
    config at all, setValue("user.name", "Ada") throws a TypeError and
    getValue("user.name") is still undefined. *)
Lemma C1_counterexample :
  configs null_user_store !! "user.name" = None /\
  res (setValue "user.name" (VString "Ada") null_user_store) = Throw TypeError /\
  getValue (final (setValue "user.name" (VString "Ada") null_user_store))
    "user.name" <> VString "Ada".
Proof. split; [reflexivity|]. split; [reflexivity|]. discriminate. Qed.

(** ** Validation and the write *)

Lemma forEach_any_store members v path : forall s s',
  res (forEach members v path s) = res (forEach members v path s') /\
  emitted (forEach members v path s) = emitted (forEach members v path s').
Proof.
  induction members as [|cb rest IH]; intros s s'; [done|].
  simpl. unfold andThen, call; simpl.
  destruct (cb_body cb v path); simpl; [|done].
  destruct (IH s s') as [-> ->]. done.
Qed.













(** ** The subscriber registry *)

Lemma invocations_app cb tr tr' :
  invocations cb (tr ++ tr') = invocations cb tr ++ invocations cb tr'.
Proof. apply flat_map_app. Qed.

Lemma invocations_before_write cb s path v pv :
  invocations cb (before_write s path v pv) = [].
Proof.
  unfold before_write.
  destruct (configs s !! path ≫= transform);
    destruct (configs s !! path ≫= validate); reflexivity.
Qed.

Lemma invocations_forEach_absent cb members v path : forall s,
  (forall c, c ∈ members -> same_callback cb c = false) ->
  invocations cb (emitted (forEach members v path s)) = [].
Proof.
  induction members as [|c rest IH]; intros s Habs; [done|].
  simpl. unfold andThen, call; cbn [res final emitted].
  assert (Hc : Nat.eqb (cb_id cb) (cb_id c) = false)
    by (apply (Habs c); left).
  destruct (cb_body c v path);
    cbn [res final emitted invocations flat_map app]; rewrite Hc;
    cbn [app]; [|reflexivity].
  apply IH. intros c' Hc'. apply Habs. by right.
Qed.

Lemma invocations_forEach_once cb members v path : forall s,
  NoDup (cb_id <$> members) ->
  (exists c, c ∈ members /\ same_callback cb c = true) ->
  Forall (fun c => cb_body c v path = Ret tt) (ahead_of cb members) ->
  invocations cb (emitted (forEach members v path s)) = [(v, path)].
Proof.
  induction members as [|c rest IH]; intros s Hnd (c0 & Hin & Hsame) Hah.
  { inversion Hin. }
  rewrite fmap_cons in Hnd. apply NoDup_cons in Hnd as [Hfresh Hnd].
  simpl in *. unfold andThen, call; cbn [res final emitted].
  destruct (same_callback cb c) eqn:Hc.
  - assert (Hrest : forall c', c' ∈ rest -> same_callback cb c' = false).
    { intros c' Hc'. unfold same_callback in *.
      apply Nat.eqb_eq in Hc. apply Nat.eqb_neq. intros Heq.
      apply Hfresh. rewrite <- Hc, Heq. apply list_elem_of_fmap. eauto. }
    unfold same_callback in Hc.
    destruct (cb_body c v path);
      cbn [res final emitted invocations flat_map app]; rewrite Hc;
      cbn [app]; [|reflexivity].
    f_equal. by apply invocations_forEach_absent.
  - apply Forall_cons in Hah as [Hok Hah]. rewrite Hok.
    unfold same_callback in Hc.
    cbn [res final emitted invocations flat_map app]. rewrite Hc.
    cbn [app]. apply IH; [done| |done].
    apply elem_of_cons in Hin as [->|Hin]; [|eauto].
    unfold same_callback in Hsame. congruence.
Qed.

Lemma set_add_NoDup cb members :
  NoDup (cb_id <$> members) -> NoDup (cb_id <$> set_add cb members).
Proof.
  intros Hnd. unfold set_add.
  destruct (existsb (same_callback cb) members) eqn:E; [done|].
  rewrite fmap_app. apply NoDup_app. split; [done|]. split.
  - intros id Hid Hcb. apply list_elem_of_fmap in Hid as (c & -> & Hc).
    simpl in Hcb. apply list_elem_of_singleton in Hcb.
    assert (existsb (same_callback cb) members = true); [|congruence].
    apply existsb_exists. exists c. split; [by apply list_elem_of_In|].
    unfold same_callback. apply Nat.eqb_eq. done.
  - simpl. apply NoDup_singleton.
Qed.

Lemma set_add_member cb members :
  exists c, c ∈ set_add cb members /\ same_callback cb c = true.
Proof.
  unfold set_add. destruct (existsb (same_callback cb) members) eqn:E.
  - apply existsb_exists in E as (c & Hc & Hs). exists c.
    split; [by apply list_elem_of_In|done].
  - exists cb. split; [apply elem_of_app; right; left|].
    unfold same_callback. apply Nat.eqb_refl.
Qed.

Lemma set_delete_absent cb members c :
  c ∈ set_delete cb members -> same_callback cb c = false.
Proof.
  unfold set_delete. intros H. apply list_elem_of_In, filter_In in H as [_ H].
  by apply negb_true_iff.
Qed.

Lemma subscribe_known s path cb addr :
  subscribers s !! path = Some addr ->
  subscribe path cb s =
    {| res := Ret {| u_path := path; u_set := addr; u_callback := cb |};
       final := with_heap (alter (set_add cb) addr) s;
       emitted := [] |}.
Proof. intros H. unfold subscribe. rewrite andThen_gets, H. reflexivity. Qed.

Lemma subscribe_fresh s path cb :
  subscribers s !! path = None ->
  subscribe path cb s =
    {| res := Ret {| u_path := path; u_set := length (heap s); u_callback := cb |};
       final :=
         with_heap (alter (set_add cb) (length (heap s)))
           (with_subscribers (insert path (length (heap s)))
              (with_heap (fun h => h ++ [[]]) s));
       emitted := [] |}.
Proof. intros H. unfold subscribe. rewrite andThen_gets, H. reflexivity. Qed.

(** What [subscribe] leaves: the callback is in the set of its path, and
    the function returned points at that set. *)
(** What [subscribe] leaves: the callback is in the set of its path, and
    the function returned points at that set. *)
Lemma subscribe_spec s path cb :
  well_formed s ->
  exists addr,
    res (subscribe path cb s) =
      Ret {| u_path := path; u_set := addr; u_callback := cb |} /\
    subscribers (final (subscribe path cb s)) !! path = Some addr /\
    members_of (final (subscribe path cb s)) path =
      set_add cb (members_of s path) /\
    state (final (subscribe path cb s)) = state s /\
    configs (final (subscribe path cb s)) = configs s /\
    well_formed (final (subscribe path cb s)).
Proof.
  intros [Hmem Haddr]. unfold members_of.
  destruct (subscribers s !! path) as [addr|] eqn:Hp.
  - rewrite (subscribe_known _ _ _ _ Hp). cbn [res final]. exists addr.
    cbn [with_heap subscribers heap state configs]. rewrite Hp.
    destruct (lookup_lt_is_Some_2 (heap s) addr (Haddr _ _ Hp)) as [members Hm].
    rewrite list_lookup_alter_eq, Hm.
    repeat (split; [reflexivity|]). split.
    + intros a ms. cbn [with_heap with_subscribers subscribers heap].
      destruct (decide (a = addr)) as [->|Hne].
      * rewrite list_lookup_alter_eq, Hm. intros [= <-].
        apply set_add_NoDup. eauto.
      * rewrite list_lookup_alter_ne by done. eauto.
    + intros p a Hpa. cbn [with_heap subscribers heap] in *.
      rewrite length_alter. eauto.
  - rewrite (subscribe_fresh _ _ _ Hp). cbn [res final]. exists (length (heap s)).
    cbn [with_heap with_subscribers subscribers heap state configs].
    rewrite lookup_insert_eq, list_lookup_alter_eq.
    rewrite lookup_app_r, Nat.sub_diag by lia.
    repeat (split; [reflexivity|]). split.
    + intros a ms. cbn [with_heap with_subscribers subscribers heap].
      destruct (decide (a = length (heap s))) as [->|Hne].
      * rewrite list_lookup_alter_eq, lookup_app_r, Nat.sub_diag by lia.
        intros [= <-]. apply NoDup_singleton.
      * rewrite list_lookup_alter_ne by done. intros Hl.
        apply lookup_app_Some in Hl as [Hl|[Hge Hl]]; [eauto|].
        destruct (a - length (heap s)) as [|n] eqn:Hd; [lia|].
        destruct n; discriminate.
    + intros p a. cbn [with_heap with_subscribers subscribers heap].
      rewrite length_alter, length_app. simpl.
      destruct (decide (path = p)) as [->|Hne].
      * rewrite lookup_insert_eq. intros [= <-]. lia.
      * rewrite lookup_insert_ne by done. intros Hpa.
        specialize (Haddr _ _ Hpa). lia.
Qed.

Lemma unsubscribe_final s u :
  final (unsubscribe u s) =
    let s' := with_heap (alter (set_delete (u_callback u)) (u_set u)) s in
    if Nat.eqb (length (default [] (heap s' !! u_set u))) 0
    then with_subscribers (delete (u_path u)) s'
    else s'.
Proof.
  unfold unsubscribe. rewrite andThen_modify, andThen_gets.
  cbv zeta. destruct (Nat.eqb _ 0); reflexivity.
Qed.

(** Once the function [subscribe] returned has run, its callback is not
    among the subscribers of its path. *)
Lemma unsubscribe_members s u c :
  subscribers s !! u_path u = Some (u_set u) ->
  c ∈ members_of (final (unsubscribe u s)) (u_path u) ->
  same_callback (u_callback u) c = false.
Proof.
  intros Hp. rewrite unsubscribe_final. cbv zeta. unfold members_of.
  destruct (Nat.eqb _ 0);
    cbn [with_subscribers with_heap subscribers heap].
  - rewrite lookup_delete_eq. inversion 1.
  - rewrite Hp, list_lookup_alter_eq.
    destruct (heap s !! u_set u) as [members|]; cbn [fmap option_fmap option_map default].
    + apply set_delete_absent.
    + inversion 1.
Qed.

Lemma createBindingStore_well_formed initialState :
  well_formed (createBindingStore initialState).
Proof. split; intros ? ?; cbn; [rewrite lookup_nil|rewrite lookup_empty]; done. Qed.

Lemma setValue_well_formed s path v :
  well_formed s -> well_formed (final (setValue path v s)).
Proof.
  intros [Hmem Haddr]. destruct (setValue_registry s path v) as (Hs & Hh & _).
  split; rewrite ?Hs, Hh; done.
Qed.

Lemma bind_well_formed s path config :
  well_formed s -> well_formed (final (bind path config s)).
Proof. intros [Hmem Haddr]. split; done. Qed.

Lemma set_delete_NoDup cb members :
  NoDup (cb_id <$> members) -> NoDup (cb_id <$> set_delete cb members).
Proof.
  unfold set_delete. induction members as [|c rest IH]; [done|].
  rewrite fmap_cons. intros [Hc Hnd]%NoDup_cons. simpl.
  destruct (negb (same_callback cb c)); [|auto].
  rewrite fmap_cons. apply NoDup_cons. split; [|auto].
  intros Hin. apply Hc. apply list_elem_of_fmap in Hin as (c' & -> & Hc').
  apply list_elem_of_fmap. exists c'. split; [done|].
  apply list_elem_of_In. apply list_elem_of_In, filter_In in Hc' as [? _]. done.
Qed.

Lemma unsubscribe_well_formed s u :
  well_formed s -> well_formed (final (unsubscribe u s)).
Proof.
  intros [Hmem Haddr]. rewrite unsubscribe_final. cbv zeta.
  assert (Hmem' : forall a ms,
    alter (set_delete (u_callback u)) (u_set u) (heap s) !! a = Some ms ->
    NoDup (cb_id <$> ms)).
  { intros a ms. destruct (decide (a = u_set u)) as [->|Hne].
    - rewrite list_lookup_alter_eq.
      destruct (heap s !! u_set u) as [members|] eqn:Hm; [|discriminate].
      intros [= <-]. apply set_delete_NoDup. eauto.
    - rewrite list_lookup_alter_ne by done. eauto. }
  destruct (Nat.eqb _ 0); split;
    cbn [with_subscribers with_heap subscribers heap]; try exact Hmem'.
  - intros p a [_ Hpa]%lookup_delete_Some. rewrite length_alter. eauto.
  - intros p a Hpa. rewrite length_alter. eauto.
Qed.

Lemma invocations_setValue_absent cb s path v :
  (forall c, c ∈ members_of s path -> same_callback cb c = false) ->
  invocations cb (emitted (setValue path v s)) = [].
Proof.
  intros Habs. destruct (transformed s path v) as [pv|e] eqn:HT.
  - destruct (validator_returns s path pv) eqn:HV.
    + destruct (setNestedValue (state s) path pv) as [t'|e] eqn:HW.
      * rewrite (setValue_commits _ _ _ _ _ HT HV HW). cbn [emitted].
        rewrite invocations_app, invocations_before_write.
        cbn [app invocations flat_map].
        by apply invocations_forEach_absent.
      * rewrite (setValue_write_throws _ _ _ _ _ HT HV HW).
        apply invocations_before_write.
    + unfold validator_returns in HV.
      destruct (configs s !! path ≫= validate) as [validator|] eqn:HC; [|discriminate].
      destruct (validator pv) as [r|e] eqn:HR; [discriminate|].
      rewrite (setValue_validator_throws _ _ _ _ _ _ HT HC HR).
      apply invocations_before_write.
  - rewrite (setValue_transform_throws _ _ _ _ HT). reflexivity.
Qed.

(** C4 as stated fails: on the store made from [{ user: null }], a
    callback subscribed to 'user.name' is not called by
    setValue('user.name', "Ada"): the write throws a TypeError before any
    notification. *)
Lemma C4_counterexample :
  let subscribed := final (subscribe "user.name" (listener 0) null_user_store) in
  let run := setValue "user.name" (VString "Ada") subscribed in
  members_of subscribed "user.name" = [listener 0] /\
  res run = Throw TypeError /\
  length (invocations (listener 0) (emitted run)) <> 1.
Proof. split; [reflexivity|]. split; [reflexivity|]. discriminate. Qed.

(** C4, as the code has it: S being subscribed to P on a well-formed store,
    if every intermediate segment of P is absent or holds a mapping (P using
    no inherited name), the transform and the validator of P (if any)
    return, and the callbacks that the set of P lists before S return, then
    setValue(P, V) calls S exactly once, with the committed value and P,
    within the call and after the write. Once the function subscribe returned has been called, setValue(P,
    V') does not call S, whatever V' is. *)
Theorem C4_subscriber_is_called_once_after_the_write s path cb v pv :
  well_formed s ->
  let sub := subscribe path cb s in
  own_names path = true ->
  writable (state (final sub)) path = true ->
  transformed (final sub) path v = Ret pv ->
  validator_returns (final sub) path pv = true ->
  Forall (fun c => cb_body c pv path = Ret tt)
    (ahead_of cb (members_of (final sub) path)) ->
  let run := setValue path v (final sub) in
  invocations cb (emitted run) = [(pv, path)] /\
  (exists pre post,
     emitted run = pre ++ EvCommit path pv :: post /\
     invocations cb pre = [] /\
     invocations cb post = [(pv, path)]) /\
  (forall u v', res sub = Ret u ->
     invocations cb
       (emitted (setValue path v' (final (unsubscribe u (final run))))) = []).
Proof.
  intros Hwf sub _ HW HT HV Hah run. subst sub run.
  destruct (subscribe_spec s path cb Hwf)
    as (addr & Hres & Hsub & Hmem & _ & _ & Hwf1).
  set (s1 := final (subscribe path cb s)) in *.
  apply (writable_setNestedValue _ _ pv) in HW as [t' HW].
  assert (Honce : invocations cb
            (emitted (forEach (members_of s1 path) pv path (with_state t' s1)))
          = [(pv, path)]).
  { apply invocations_forEach_once; [| |done].
    - unfold members_of. rewrite Hsub.
      destruct (heap s1 !! addr) as [ms|] eqn:Hm; [|apply NoDup_nil_2].
      eapply (wf_members _ Hwf1), Hm.
    - rewrite Hmem. apply set_add_member. }
  rewrite (setValue_commits _ _ _ _ _ HT HV HW). cbn [emitted final].
  split; [|split].
  - rewrite invocations_app, invocations_before_write.
    cbn [app invocations flat_map]. exact Honce.
  - eexists _, _. split; [reflexivity|]. split; [|exact Honce].
    apply invocations_before_write.
  - intros u v' Hu. rewrite Hres in Hu. injection Hu as <-.
    apply invocations_setValue_absent. intros c Hc.
    eapply (unsubscribe_members (with_state t' s1)
              {| u_path := path; u_set := addr; u_callback := cb |});
      [exact Hsub|exact Hc].
Qed.

Lemma watched_store_well_formed : well_formed watched_store.
Proof.
  destruct (subscribe_spec profile_store "user.name" (listener 1))
    as (_ & _ & _ & _ & _ & _ & H); [|exact H].
  apply bind_well_formed, createBindingStore_well_formed.
Qed.

Lemma C4_subscriber_is_called_once_after_the_write_witness :
  well_formed watched_store /\
  let sub := subscribe "user.name" (listener 2) watched_store in
  own_names "user.name" = true /\
  writable (state (final sub)) "user.name" = true /\
  transformed (final sub) "user.name" (VString "Ada") = Ret (VString "Ada!") /\
  validator_returns (final sub) "user.name" (VString "Ada!") = true /\
  Forall (fun c => cb_body c (VString "Ada!") "user.name" = Ret tt)
    (ahead_of (listener 2) (members_of (final sub) "user.name")) /\
  let run := setValue "user.name" (VString "Ada") (final sub) in
  invocations (listener 2) (emitted run) = [(VString "Ada!", "user.name")] /\
  (exists pre post,
     emitted run = pre ++ EvCommit "user.name" (VString "Ada!") :: post /\
     invocations (listener 2) pre = [] /\
     invocations (listener 2) post = [(VString "Ada!", "user.name")]) /\
  (forall u v', res sub = Ret u ->
     invocations (listener 2)
       (emitted (setValue "user.name" v'
                   (final (unsubscribe u (final run))))) = []).
Proof.
  split; [exact watched_store_well_formed|].
  intros sub.
  assert (Hah : Forall (fun c => cb_body c (VString "Ada!") "user.name" = Ret tt)
                  (ahead_of (listener 2) (members_of (final sub) "user.name"))).
  { repeat constructor. }
  split; [reflexivity|].
  split; [reflexivity|]. split; [reflexivity|]. split; [reflexivity|].
  split; [exact Hah|].
  exact (C4_subscriber_is_called_once_after_the_write watched_store "user.name"
           (listener 2) (VString "Ada") (VString "Ada!")
           watched_store_well_formed eq_refl eq_refl eq_refl eq_refl Hah).
Defined.

(** ** The input adapter *)

Section HandlerProperties.

Variable parseFloat : string -> number.

Lemma handleChange_touched context target bindingValue :
  touched (fst (handleChange parseFloat context target bindingValue)) = true /\
  submitAttempted (fst (handleChange parseFloat context target bindingValue)) =
    submitAttempted context.
Proof.
  unfold handleChange.
  destruct (touched context) eqn:Ht; cbn [negb];
    destruct (shouldIgnoreComposition _ target); cbn [fst];
    destruct (has_selectionStart target); cbn; auto.
Qed.

Lemma handleInput_touched context target :
  touched (fst (handleInput parseFloat context target)) = true /\
  submitAttempted (fst (handleInput parseFloat context target)) =
    submitAttempted context.
Proof.
  unfold handleInput.
  destruct (touched context) eqn:Ht; cbn [negb];
    [destruct (isComposing context) | cbn [set_touched isComposing];
     destruct (isComposing context)]; cbn [negb fst];
    repeat match goal with
    | |- context [if ?b then _ else _] => destruct b
    end; cbn; auto.
Qed.

Lemma le_touched_step context ev bindingValue :
  Bool.le (touched context)
    (touched (fst (handle parseFloat context ev bindingValue))) /\
  Bool.le (submitAttempted context)
    (submitAttempted (fst (handle parseFloat context ev bindingValue))).
Proof.
  destruct ev as [target|target|target|target| | |]; cbn [handle].
  - destruct (handleChange_touched context target bindingValue) as [-> ->].
    split; [destruct (touched context)|destruct (submitAttempted context)]; done.
  - destruct (handleInput_touched context target) as [-> ->].
    split; [destruct (touched context)|destruct (submitAttempted context)]; done.
  - cbn. split; [destruct (touched context)|destruct (submitAttempted context)]; done.
  - cbn. split; [destruct (touched context)|destruct (submitAttempted context)]; done.
  - unfold handleFocus. cbn [fst].
    destruct (touched context) eqn:Ht; cbn; rewrite ?Ht;
      split; try done; destruct (submitAttempted context); done.
  - cbn. split; [destruct (touched context)|destruct (submitAttempted context)]; done.
  - cbn. split; [destruct (touched context)|destruct (submitAttempted context)]; done.
Qed.

Lemma deliver_context b context ev s :
  fst (deliver parseFloat b context ev s) =
  fst (handle parseFloat context ev (getValue s (Binding_path b))).
Proof. unfold deliver. destruct (handle _ _ _ _). reflexivity. Qed.

(** C5, as the code has it: while composing, a change event is suppressed
    (the handler calls no setValue) exactly when its target has a selection
    range (an input or a textarea, not a select) and the platform is
    desktop-class or unclassified, or Android-class with the raw text equal
    to the last-seen value; on iOS-class platforms it is never suppressed. *)
Theorem C5_change_suppressed_while_composing context target bindingValue :
  isComposing context = true ->
  snd (handleChange parseFloat context target bindingValue) = None <->
  has_selectionStart target = true /\
  match platform context with
  | desktop | other => True
  | android => target_value target = lastValue context
  | ios => False
  end.
Proof.
  intros Hc. unfold handleChange.
  assert (Hs : forall c, isComposing c = true -> platform c = platform context ->
    lastValue c = lastValue context ->
    (shouldIgnoreComposition c target = true <->
     has_selectionStart target = true /\
     match platform context with
     | desktop | other => True
     | android => target_value target = lastValue context
     | ios => False
     end)).
  { intros c Hic Hp Hl. unfold shouldIgnoreComposition. rewrite Hic, Hp, Hl.
    destruct (has_selectionStart target); cbn [negb];
      [|split; [discriminate|intros [? _]; discriminate]].
    destruct (platform context); cbn [platform_eqb andb].
    - tauto.
    - rewrite String.eqb_eq. tauto.
    - split; [discriminate|tauto].
    - tauto. }
  rewrite <- (Hs (if negb (touched context) then set_touched context else context));
    try (destruct (touched context); done).
  destruct (shouldIgnoreComposition _ target); cbn [snd]; split; try done.
Qed.

(** C6: on every platform and in every context, compositionend leaves the
    adapter not composing and ends in one setValue call, whose argument is
    the text of the target, or for a number field the number parsed from
    it, 0 when that is NaN (or a zero). Delivered to a binding, the event
    runs exactly that setValue on the binding's path. *)
Theorem C6_compositionend_commits_final_text context target b s :
  let parsed := parseFloat (target_value target) in
  let finalValue :=
    if String.eqb (target_type target) "number"
    then VNumber (if is_nan parsed then 0%float
                  else if is_zero parsed then 0%float else parsed)
    else VString (target_value target) in
  isComposing (fst (handleCompositionEnd parseFloat context target)) = false /\
  snd (handleCompositionEnd parseFloat context target) = Some finalValue /\
  isComposing (fst (deliver parseFloat b context (compositionend target) s)) = false /\
  snd (deliver parseFloat b context (compositionend target) s) =
    setValue (Binding_path b) finalValue s.
Proof.
  assert (H : or_zero (parseFloat (target_value target)) =
    if is_nan (parseFloat (target_value target)) then 0%float
    else if is_zero (parseFloat (target_value target)) then 0%float
    else parseFloat (target_value target)).
  { unfold or_zero, falsy. destruct (is_nan _); reflexivity. }
  cbv zeta. unfold deliver, handle, handleCompositionEnd.
  cbn [fst snd set_isComposing isComposing Binding_setValue]. rewrite <- H.
  repeat split; reflexivity.
Qed.

Lemma Bool_le_trans a b c : Bool.le a b -> Bool.le b c -> Bool.le a c.
Proof. destruct a, b, c; simpl; auto; discriminate. Qed.

(** C9: no event handler takes touched or submitAttempted from true to
    false: each flag after an event is at least what it was before, and so
    it is after any run of events delivered to the adapter. *)
Theorem C9_touched_and_submitAttempted_never_reset b (evs : list InputEvent) :
  forall context s,
  (forall ev bindingValue,
     Bool.le (touched context)
       (touched (fst (handle parseFloat context ev bindingValue))) /\
     Bool.le (submitAttempted context)
       (submitAttempted (fst (handle parseFloat context ev bindingValue)))) /\
  Bool.le (touched context)
    (touched (fst (deliver_all parseFloat b context evs s))) /\
  Bool.le (submitAttempted context)
    (submitAttempted (fst (deliver_all parseFloat b context evs s))).
Proof.
  induction evs as [|ev evs' IH]; intros context s;
    (split; [intros; apply le_touched_step|]).
  - simpl. split; [destruct (touched context)|destruct (submitAttempted context)]; done.
  - cbn [deliver_all].
    pose proof (deliver_context b context ev s) as Hd.
    destruct (deliver parseFloat b context ev s) as [context' r].
    cbn [fst] in Hd. subst context'.
    destruct (le_touched_step context ev (getValue s (Binding_path b))) as [Ht Hs].
    destruct (IH (fst (handle parseFloat context ev (getValue s (Binding_path b))))
                 (final r)) as (_ & Ht' & Hs').
    split; eapply Bool_le_trans; eauto.
Qed.

End HandlerProperties.

(** C5 as stated fails for the unclassified platform: while composing, a
    change event on a text input is suppressed there too. *)
Lemma C5_counterexample :
  platform (composing other "ni") = other /\
  isComposing (composing other "ni") = true /\
  snd (handleChange digits_parseFloat (composing other "ni") (text_input "nih")
         VUndefined) = None.
Proof. repeat split. Qed.

Lemma C5_change_suppressed_while_composing_witness :
  isComposing (composing android "ni") = true /\
  (snd (handleChange digits_parseFloat (composing android "ni") (text_input "ni")
          VUndefined) = None <->
   has_selectionStart (text_input "ni") = true /\
   match platform (composing android "ni") with
   | desktop | other => True
   | android => target_value (text_input "ni") = lastValue (composing android "ni")
   | ios => False
   end).
Proof.
  split; [reflexivity|].
  apply (C5_change_suppressed_while_composing digits_parseFloat
           (composing android "ni") (text_input "ni") VUndefined).
  reflexivity.
Defined.

(** ** Derived bindings and batch *)

Lemma setValue_then_getValue s path v pv :
  writable (state s) path = true ->
  transformed s path v = Ret pv ->
  validator_returns s path pv = true ->
  getValue (final (setValue path v s)) path = pv.
Proof.
  intros HW HT HV.
  apply (writable_setNestedValue _ _ pv) in HW as [t' HW].
  rewrite (setValue_commits _ _ _ _ _ HT HV HW).
  eapply setNestedValue_read, HW.
Qed.

(** C7 as stated fails: the binding derived from 'title', whose config
    transforms with [exclaim], by the transformer that returns its argument,
    stores "hi" when "hi" is written through it, not what comes of passing
    "hi" through the parent's transform first. *)
Lemma C7_counterexample :
  res (bind "title" exclaim_config (createBindingStore [])) = Ret title /\
  let derived := Binding_transform title keep title_store in
  exists d,
    res derived = Ret d /\
    Binding_path d = "title_transformed" /\
    getValue (final (Binding_setValue d (VString "hi") (final derived)))
      "title_transformed" = VString "hi" /\
    exclaim (VString "hi") = Ret (VString "hi!") /\
    keep (VString "hi!") = Ret (VString "hi!") /\
    VString "hi" <> VString "hi!".
Proof.
  split; [reflexivity|]. eexists. split; [reflexivity|].
  repeat (split; [reflexivity|]). discriminate.
Qed.

(** C7, as the code has it: transform(f) on a binding at path P returns a
    binding at P + "_transformed" whose config, registered in the store for
    that path, has f alone as its transform, the parent's transform not being
    part of it: a value v written through the derived binding is passed to f
    once, as it is, and f(v) is what is stored (the write being possible and
    the derived path using no inherited name). *)
Theorem C7_derived_binding_stores_f_of_v s b f v pv :
  let derivedPath := Binding_path b +:+ "_transformed" in
  let derived := Binding_transform b f s in
  own_names derivedPath = true ->
  writable (state s) derivedPath = true ->
  f v = Ret pv ->
  exists d,
    res derived = Ret d /\
    Binding_path d = derivedPath /\
    transform (Binding_config d) = Some f /\
    configs (final derived) !! derivedPath = Some (Binding_config d) /\
    getValue (final (Binding_setValue d v (final derived))) derivedPath = pv /\
    transform_calls derivedPath
      (emitted (Binding_setValue d v (final derived))) = [v].
Proof.
  intros derivedPath derived _ HW Hf. subst derived.
  unfold Binding_transform. fold derivedPath.
  eexists. split; [reflexivity|]. cbn [Binding_path Binding_config transform].
  split; [reflexivity|]. split; [reflexivity|].
  set (cfg := {| transform := Some (fun val => f val); validate := None;
                 debounce := debounce (Binding_config b);
                 immediate := immediate (Binding_config b);
                 validationTiming := validationTiming (Binding_config b) |}).
  assert (Hcfg : configs (final (bind derivedPath cfg s)) !! derivedPath = Some cfg)
    by apply lookup_insert_eq.
  split; [exact Hcfg|].
  assert (HT : transformed (final (bind derivedPath cfg s)) derivedPath v = Ret pv).
  { unfold transformed. rewrite Hcfg. exact Hf. }
  assert (HV : validator_returns (final (bind derivedPath cfg s)) derivedPath pv = true).
  { unfold validator_returns. rewrite Hcfg. reflexivity. }
  unfold Binding_setValue. cbn [Binding_path]. split.
  - apply setValue_then_getValue; done.
  - apply (writable_setNestedValue _ _ pv) in HW as [t' HW].
    rewrite (setValue_commits _ _ _ _ _ HT HV HW). cbn [emitted].
    rewrite transform_calls_app, transform_calls_commit.
    rewrite (proj1 (forEach_only_notifies _ _ _ _)), app_nil_r.
    unfold before_write. rewrite Hcfg. simpl.
    rewrite String.eqb_refl. reflexivity.
Qed.

Lemma C7_derived_binding_stores_f_of_v_witness :
  let derivedPath := Binding_path title +:+ "_transformed" in
  let derived := Binding_transform title keep title_store in
  own_names derivedPath = true /\
  writable (state title_store) derivedPath = true /\
  keep (VString "hi") = Ret (VString "hi") /\
  exists d,
    res derived = Ret d /\
    Binding_path d = derivedPath /\
    transform (Binding_config d) = Some keep /\
    configs (final derived) !! derivedPath = Some (Binding_config d) /\
    getValue (final (Binding_setValue d (VString "hi") (final derived)))
      derivedPath = VString "hi" /\
    transform_calls derivedPath
      (emitted (Binding_setValue d (VString "hi") (final derived))) =
      [VString "hi"].
Proof.
  split; [reflexivity|]. split; [reflexivity|]. split; [reflexivity|].
  apply (C7_derived_binding_stores_f_of_v title_store title keep
           (VString "hi") (VString "hi")); reflexivity.
Defined.

(** C10: the binding transform(f) returns has no validator, neither in the
    config it closed over nor in the one registered for its path; whatever
    the store holds, its isValid is true and its error is undefined, and
    reading them calls nothing. *)
Theorem C10_derived_binding_is_valid s b f :
  exists d,
    res (Binding_transform b f s) = Ret d /\
    validate (Binding_config d) = None /\
    configs (final (Binding_transform b f s)) !! Binding_path d ≫= validate
      = None /\
    forall s',
      Binding_isValid d s' = ret true s' /\
      Binding_error d s' = ret None s'.
Proof.
  unfold Binding_transform. eexists. split; [reflexivity|].
  cbn [Binding_path Binding_config validate]. split; [reflexivity|]. split.
  - unfold bind. rewrite andThen_modify.
    cbn [final ret with_config configs]. rewrite lookup_insert_eq. reflexivity.
  - intros s'. split; reflexivity.
Qed.

(** C8: batch(updates) is updates(): the same result, the same store
    left, the same events. For a callback performing a list of writes, the
    events are those of the writes taken one after the other, each with
    its notifications before the next write begins. *)
Theorem C8_batch_is_a_pass_through (updates : M unit)
    (writes : list (string * value)) s :
  batch updates s = updates s /\
  batch (perform writes) s = perform writes s /\
  emitted (batch (perform writes) s) = immediate_trace writes s.
Proof.
  split; [reflexivity|]. split; [reflexivity|]. unfold batch.
  revert s. induction writes as [|[path v] rest IH]; intros s; [reflexivity|].
  cbn [perform immediate_trace]. unfold andThen.
  destruct (res (setValue path v s)); cbn [emitted].
  - rewrite IH. reflexivity.
  - symmetry. apply app_nil_r.
Qed.

(** ** The model on the specification's examples *)

(** Writing 'a.b.c' on an empty tree makes mappings at 'a' and 'a.b' and a
    leaf at 'a.b.c'. *)
Example write_creates_intermediate_mappings :
  setNestedValue [] "a.b.c" (VBool true) =
    Ret [("a", VObject [("b", VObject [("c", VBool true)])])].
Proof. reflexivity. Qed.

(** A path that does not exist reads as undefined. *)
Example missing_path_reads_undefined :
  getNestedValue [("a", VObject [])] "a.b.c" = VUndefined.
Proof. reflexivity. Qed.

(** While composing with unchanged text, a change event is dropped on
    Android and on desktop and written through on iOS. *)
Example composition_scenario :
  snd (handleChange digits_parseFloat (composing android "ni") (text_input "ni")
         VUndefined) = None /\
  snd (handleChange digits_parseFloat (composing desktop "ni") (text_input "ni")
         VUndefined) = None /\
  snd (handleChange digits_parseFloat (composing ios "ni") (text_input "ni")
         VUndefined) = Some (VString "ni").
Proof. repeat split. Qed.

(** The closure [subscribe] returned keeps its set: called again after the
    path got a new set, it finds its own set empty and deletes the path's
    entry, and the callback subscribed since is no longer notified. *)
Example stale_unsubscribe_drops_the_path :
  let first := subscribe "a" (listener 1) (createBindingStore []) in
  let u := {| u_path := "a"; u_set := 0; u_callback := listener 1 |} in
  let again := subscribe "a" (listener 1) (final (unsubscribe u (final first))) in
  res first = Ret u /\
  members_of (final again) "a" = [listener 1] /\
  members_of (final (unsubscribe u (final again))) "a" = [].
Proof. repeat split. Qed.

(** ** PathResolver: what a write leaves alone, and what it creates *)

Lemma fold_get_undefined qs : fold_left optional_get qs VUndefined = VUndefined.
Proof. induction qs; simpl; auto. Qed.

Lemma fold_get_absent qs v :
  is_object v = false -> qs <> [] -> fold_left optional_get qs v = VUndefined.
Proof.
  intros Hv Hqs. destruct qs as [|q qs]; [done|]. simpl.
  destruct v; try discriminate; apply fold_get_undefined.
Qed.








Lemma assign_at_prefix keys : forall lastKey v current t' pre rest,
  keys ++ [lastKey] = pre ++ rest ->
  rest <> [] ->
  assign_at keys lastKey v current = Ret t' ->
  exists props, fold_left optional_get pre (VObject t') = VObject props.
Proof.
  induction keys as [|key keys' IH]; intros lastKey v current t' pre rest He Hr H;
    (destruct pre as [|k pre']; [by eexists|]); simpl in He.
  - injection He as _ He. symmetry in He. apply app_eq_nil in He as [_ ?]. done.
  - injection He as <- He. simpl in H |- *.
    destruct (own key current) as [[| | | | |next]|] eqn:E; try discriminate.
    + destruct (assign_at keys' lastKey v next) as [child|] eqn:A; [|discriminate].
      injection H as <-. rewrite own_put_eq. simpl. eauto.
    + destruct (assign_at keys' lastKey v []) as [child|] eqn:A; [|discriminate].
      injection H as <-. rewrite own_put_eq. simpl. eauto.
Qed.

(** X2: a setValue(P, V) that writes leaves a mapping at every proper prefix
    of P: getValue at a path Q whose segments are the first segments of P,
    some segment of P remaining, is an object. *)
Theorem X2_intermediate_segments_are_mappings s p v pv q rest :
  own_names p = true ->
  writable (state s) p = true ->
  transformed s p v = Ret pv ->
  validator_returns s p pv = true ->
  split p = split q ++ rest ->
  rest <> [] ->
  exists props, getValue (final (setValue p v s)) q = VObject props.
Proof.
  intros _ HW HT HV Hq Hr.
  apply (writable_setNestedValue _ _ pv) in HW as [t' HW].
  rewrite (setValue_commits _ _ _ _ _ HT HV HW).
  unfold getValue, getNestedValue. cbn [final state with_state].
  unfold setNestedValue in HW. rewrite (split_pop p) in Hq.
  destruct (pop (split p)) as [keys lastKey]. simpl in Hq.
  eapply assign_at_prefix; eauto.
Qed.

Lemma X2_intermediate_segments_are_mappings_witness :
  own_names "a.b.c" = true /\
  writable (state (createBindingStore [])) "a.b.c" = true /\
  transformed (createBindingStore []) "a.b.c" (VBool true) = Ret (VBool true) /\
  validator_returns (createBindingStore []) "a.b.c" (VBool true) = true /\
  split "a.b.c" = split "a.b" ++ ["c"] /\
  ["c"] <> [] /\
  exists props,
    getValue (final (setValue "a.b.c" (VBool true) (createBindingStore []))) "a.b"
      = VObject props.
Proof.
  split; [reflexivity|]. split; [reflexivity|]. split; [reflexivity|].
  split; [reflexivity|]. split; [reflexivity|]. split; [discriminate|].
  apply (X2_intermediate_segments_are_mappings (createBindingStore []) "a.b.c"
           (VBool true) (VBool true) "a.b" ["c"]);
    try reflexivity; discriminate.
Defined.

Lemma split_child p k : split (p +:+ "." +:+ k) = split p ++ split k.
Proof.
  induction p as [|c rest IH]; [reflexivity|].
  change (String c rest +:+ "." +:+ k) with (String c (rest +:+ "." +:+ k)).
  cbn [split]. rewrite IH. destruct (Ascii.eqb c "."); [reflexivity|].
  pose proof (split_nonempty rest). destruct (split rest); [done|reflexivity].
Qed.

Lemma removelast_split_child p k :
  removelast (split p ++ split k) = split p ++ removelast (split k).
Proof. apply removelast_app, split_nonempty. Qed.

Lemma passable_through_leaf keys : forall lastKey v current t' more,
  assign_at keys lastKey v current = Ret t' ->
  is_object v = false ->
  passable ((keys ++ [lastKey]) ++ more) t' = false.
Proof.
  induction keys as [|key keys' IH]; intros lastKey v current t' more H Hv;
    simpl in H |- *.
  - injection H as <-. rewrite own_put_eq. destruct v; done.
  - destruct (own key current) as [[| | | | |next]|] eqn:E; try discriminate.
    + destruct (assign_at keys' lastKey v next) as [child|] eqn:A; [|discriminate].
      injection H as <-. rewrite own_put_eq. eauto.
    + destruct (assign_at keys' lastKey v []) as [child|] eqn:A; [|discriminate].
      injection H as <-. rewrite own_put_eq. eauto.
Qed.

(** X3: once a value that is no mapping (a primitive, null or undefined)
    has been written at P, a write at any path below P, P.K, throws a
    TypeError, leaves the store as it is and notifies nobody; P still reads
    as before. *)
Theorem X3_no_write_below_a_leaf s p v pv k w pw :
  let child := p +:+ "." +:+ k in
  let s1 := final (setValue p v s) in
  own_names child = true ->
  writable (state s) p = true ->
  transformed s p v = Ret pv ->
  validator_returns s p pv = true ->
  is_object pv = false ->
  transformed s1 child w = Ret pw ->
  validator_returns s1 child pw = true ->
  res (setValue child w s1) = Throw TypeError /\
  final (setValue child w s1) = s1 /\
  emitted (setValue child w s1) = before_write s1 child w pw /\
  getValue (final (setValue child w s1)) p = pv.
Proof.
  intros child s1 _ HW HT HV Hpv HT1 HV1.
  assert (Hread : getValue s1 p = pv).
  { subst s1. apply setValue_then_getValue; done. }
  assert (Hw1 : writable (state s1) child = false).
  { subst s1 child. apply (writable_setNestedValue _ _ pv) in HW as [t' HW].
    rewrite (setValue_commits _ _ _ _ _ HT HV HW). cbn [final state with_state].
    unfold writable, pop. cbn [fst]. rewrite split_child, removelast_split_child.
    unfold setNestedValue in HW. rewrite (split_pop p).
    destruct (pop (split p)) as [keys lastKey]. cbn [fst snd].
    eapply passable_through_leaf; eauto. }
  destruct (setNestedValue (state s1) child pw) as [t1|e] eqn:HW1.
  - assert (writable (state s1) child = true); [|congruence].
    apply (writable_setNestedValue _ _ pw). eauto.
  - assert (e = TypeError) as ->.
    { unfold setNestedValue in HW1. destruct (pop (split child)).
      eapply assign_at_error, HW1. }
    rewrite (setValue_write_throws _ _ _ _ _ HT1 HV1 HW1). done.
Qed.

Lemma X3_no_write_below_a_leaf_witness :
  let child := "a" +:+ "." +:+ "b" in
  let s1 := final (setValue "a" (VNumber 1%float) (createBindingStore [])) in
  own_names child = true /\
  writable (state (createBindingStore [])) "a" = true /\
  transformed (createBindingStore []) "a" (VNumber 1%float) = Ret (VNumber 1%float) /\
  validator_returns (createBindingStore []) "a" (VNumber 1%float) = true /\
  is_object (VNumber 1%float) = false /\
  transformed s1 child (VNumber 2%float) = Ret (VNumber 2%float) /\
  validator_returns s1 child (VNumber 2%float) = true /\
  res (setValue child (VNumber 2%float) s1) = Throw TypeError /\
  final (setValue child (VNumber 2%float) s1) = s1 /\
  emitted (setValue child (VNumber 2%float) s1) =
    before_write s1 child (VNumber 2%float) (VNumber 2%float) /\
  getValue (final (setValue child (VNumber 2%float) s1)) "a" = VNumber 1%float.
Proof.
  repeat (split; [reflexivity|]).
  apply (X3_no_write_below_a_leaf (createBindingStore []) "a" (VNumber 1%float)
           (VNumber 1%float) "b" (VNumber 2%float) (VNumber 2%float));
    reflexivity.
Defined.

(** X4: getValue never throws on a missing segment: when a proper prefix Q
    of P reads null or undefined, P reads undefined (the read of P going
    through mappings up to there). *)
Theorem X4_reading_through_null_is_undefined s p q rest :
  plain_read s p = true ->
  split p = split q ++ rest ->
  rest <> [] ->
  getValue s q = VNull \/ getValue s q = VUndefined ->
  getValue s p = VUndefined.
Proof.
  intros _ Hq Hr Hv. unfold getValue, getNestedValue in *.
  rewrite Hq, fold_left_app.
  apply fold_get_absent; [|done]. destruct Hv as [-> | ->]; done.
Qed.

Lemma X4_reading_through_null_is_undefined_witness :
  plain_read null_user_store "user.name" = true /\
  split "user.name" = split "user" ++ ["name"] /\
  ["name"] <> [] /\
  (getValue null_user_store "user" = VNull \/
   getValue null_user_store "user" = VUndefined) /\
  getValue null_user_store "user.name" = VUndefined.
Proof.
  split; [reflexivity|]. split; [reflexivity|]. split; [discriminate|].
  split; [left; reflexivity|].
  apply (X4_reading_through_null_is_undefined null_user_store "user.name"
           "user" ["name"]); [reflexivity|reflexivity|discriminate|].
  left; reflexivity.
Defined.

(** ** The write pipeline: aborts, and who is notified *)

(** X5: when the transform of P throws, setValue(P, V) throws the same and
    nothing else happens: the store is left as it was, the validator of P is
    not called and no subscriber is notified. *)
Theorem X5_throwing_transform_aborts_the_write s path v e :
  transformed s path v = Throw e ->
  res (setValue path v s) = Throw e /\
  final (setValue path v s) = s /\
  validate_calls path (emitted (setValue path v s)) = [] /\
  forall cb, invocations cb (emitted (setValue path v s)) = [].
Proof.
  intros HT. rewrite (setValue_transform_throws _ _ _ _ HT). done.
Qed.

Lemma X5_throwing_transform_aborts_the_write_witness :
  transformed fragile_store "age" (VString "31") =
    Throw (UserThrow (VString "transform failed")) /\
  res (setValue "age" (VString "31") fragile_store) =
    Throw (UserThrow (VString "transform failed")) /\
  final (setValue "age" (VString "31") fragile_store) = fragile_store /\
  validate_calls "age" (emitted (setValue "age" (VString "31") fragile_store)) = [] /\
  forall cb, invocations cb (emitted (setValue "age" (VString "31") fragile_store)) = [].
Proof.
  split; [reflexivity|].
  apply (X5_throwing_transform_aborts_the_write fragile_store "age" (VString "31")).
  reflexivity.
Defined.

Lemma forEach_all_return members v path : forall s,
  Forall (fun c => cb_body c v path = Ret tt) members ->
  res (forEach members v path s) = Ret tt /\
  emitted (forEach members v path s) = notifications members v path.
Proof.
  induction members as [|c rest IH]; intros s Hall; [done|].
  apply Forall_cons in Hall as [Hc Hrest].
  simpl. unfold andThen, call. cbn [res final emitted]. rewrite Hc.
  cbn [res final emitted app]. destruct (IH s Hrest) as [-> ->]. done.
Qed.

Lemma forEach_throws before : forall c after v path e s,
  Forall (fun c => cb_body c v path = Ret tt) before ->
  cb_body c v path = Throw e ->
  res (forEach (before ++ c :: after) v path s) = Throw e /\
  emitted (forEach (before ++ c :: after) v path s) =
    notifications (before ++ [c]) v path.
Proof.
  induction before as [|b rest IH]; intros c after v path e s Hall Hc.
  - simpl. unfold andThen, call. cbn [res final emitted]. rewrite Hc. done.
  - apply Forall_cons in Hall as [Hb Hrest].
    simpl. unfold andThen, call. cbn [res final emitted]. rewrite Hb.
    cbn [res final emitted app].
    destruct (IH c after v path e s Hrest Hc) as [-> ->]. done.
Qed.

(** X6: when every subscriber of P returns, a setValue(P, V) that writes
    returns, and what it does after the transform and validator calls is
    the write followed by one call of each subscriber of P, in the order the
    set of P lists them, each with the committed value and P. *)
Theorem X6_subscribers_are_notified_in_order s path v pv :
  own_names path = true ->
  writable (state s) path = true ->
  transformed s path v = Ret pv ->
  validator_returns s path pv = true ->
  Forall (fun c => cb_body c pv path = Ret tt) (members_of s path) ->
  res (setValue path v s) = Ret tt /\
  emitted (setValue path v s) =
    before_write s path v pv ++ EvCommit path pv ::
    notifications (members_of s path) pv path.
Proof.
  intros _ HW HT HV Hall.
  apply (writable_setNestedValue _ _ pv) in HW as [t' HW].
  rewrite (setValue_commits _ _ _ _ _ HT HV HW). cbn [res emitted].
  destruct (forEach_all_return _ _ _ (with_state t' s) Hall) as [-> ->]. done.
Qed.

Lemma X6_subscribers_are_notified_in_order_witness :
  own_names "user.name" = true /\
  writable (state watched_store) "user.name" = true /\
  transformed watched_store "user.name" (VString "Ada") = Ret (VString "Ada!") /\
  validator_returns watched_store "user.name" (VString "Ada!") = true /\
  Forall (fun c => cb_body c (VString "Ada!") "user.name" = Ret tt)
    (members_of watched_store "user.name") /\
  res (setValue "user.name" (VString "Ada") watched_store) = Ret tt /\
  emitted (setValue "user.name" (VString "Ada") watched_store) =
    before_write watched_store "user.name" (VString "Ada") (VString "Ada!") ++
    EvCommit "user.name" (VString "Ada!") ::
    notifications (members_of watched_store "user.name") (VString "Ada!")
      "user.name".
Proof.
  assert (Hall : Forall (fun c => cb_body c (VString "Ada!") "user.name" = Ret tt)
                   (members_of watched_store "user.name")).
  { repeat constructor. }
  split; [reflexivity|]. split; [reflexivity|]. split; [reflexivity|].
  split; [reflexivity|]. split; [exact Hall|].
  exact (X6_subscribers_are_notified_in_order watched_store "user.name"
           (VString "Ada") (VString "Ada!") eq_refl eq_refl eq_refl eq_refl Hall).
Defined.

(** X7: when a subscriber of P throws, the subscribers listed before it
    having returned, setValue(P, V) throws the same after the value has been
    written: the value is read at P, the subscribers up to the one that threw
    have been called, the ones listed after it have not. *)
Theorem X7_throwing_subscriber_stops_the_rest s path v pv before c after e :
  own_names path = true ->
  writable (state s) path = true ->
  transformed s path v = Ret pv ->
  validator_returns s path pv = true ->
  members_of s path = before ++ c :: after ->
  Forall (fun c => cb_body c pv path = Ret tt) before ->
  cb_body c pv path = Throw e ->
  res (setValue path v s) = Throw e /\
  getValue (final (setValue path v s)) path = pv /\
  emitted (setValue path v s) =
    before_write s path v pv ++ EvCommit path pv ::
    notifications (before ++ [c]) pv path.
Proof.
  intros _ HW HT HV Hm Hall Hc.
  split; [|split; [by apply setValue_then_getValue|]];
    apply (writable_setNestedValue _ _ pv) in HW as [t' HW];
    rewrite (setValue_commits _ _ _ _ _ HT HV HW); cbn [res emitted]; rewrite Hm;
    destruct (forEach_throws before c after pv path e (with_state t' s) Hall Hc)
      as [Hr He]; rewrite ?Hr, ?He; done.
Qed.

Lemma X7_throwing_subscriber_stops_the_rest_witness :
  own_names "user.name" = true /\
  writable (state crowded_store) "user.name" = true /\
  transformed crowded_store "user.name" (VString "Ada") = Ret (VString "Ada!") /\
  validator_returns crowded_store "user.name" (VString "Ada!") = true /\
  members_of crowded_store "user.name" =
    [listener 1] ++ failing_listener 2 :: [listener 3] /\
  Forall (fun c => cb_body c (VString "Ada!") "user.name" = Ret tt) [listener 1] /\
  cb_body (failing_listener 2) (VString "Ada!") "user.name" =
    Throw (UserThrow (VString "listener failed")) /\
  res (setValue "user.name" (VString "Ada") crowded_store) =
    Throw (UserThrow (VString "listener failed")) /\
  getValue (final (setValue "user.name" (VString "Ada") crowded_store)) "user.name"
    = VString "Ada!" /\
  emitted (setValue "user.name" (VString "Ada") crowded_store) =
    before_write crowded_store "user.name" (VString "Ada") (VString "Ada!") ++
    EvCommit "user.name" (VString "Ada!") ::
    notifications ([listener 1] ++ [failing_listener 2]) (VString "Ada!")
      "user.name".
Proof.
  assert (Hall : Forall (fun c => cb_body c (VString "Ada!") "user.name" = Ret tt)
                   [listener 1]).
  { repeat constructor. }
  split; [reflexivity|]. split; [reflexivity|]. split; [reflexivity|].
  split; [reflexivity|]. split; [reflexivity|]. split; [exact Hall|].
  split; [reflexivity|].
  exact (X7_throwing_subscriber_stops_the_rest crowded_store "user.name"
           (VString "Ada") (VString "Ada!") [listener 1] (failing_listener 2)
           [listener 3] _ eq_refl eq_refl eq_refl eq_refl eq_refl Hall eq_refl).
Defined.

(** X8: setValue(P, V) calls only subscribers of P itself: a callback that
    is not in the set of P, be it subscribed to a prefix of P or to a path
    below P, is not called, whatever the call does. *)
Theorem X8_only_subscribers_of_the_path_are_called s path v cb :
  (forall c, c ∈ members_of s path -> same_callback cb c = false) ->
  invocations cb (emitted (setValue path v s)) = [].
Proof. apply invocations_setValue_absent. Qed.

Lemma X8_only_subscribers_of_the_path_are_called_witness :
  members_of parent_watch_store "user" = [listener 1] /\
  (forall c, c ∈ members_of parent_watch_store "user.name" ->
     same_callback (listener 1) c = false) /\
  invocations (listener 1)
    (emitted (setValue "user.name" (VString "Ada") parent_watch_store)) = [].
Proof.
  assert (H : forall c, c ∈ members_of parent_watch_store "user.name" ->
                same_callback (listener 1) c = false).
  { intros c Hc. inversion Hc. }
  split; [reflexivity|]. split; [exact H|].
  exact (X8_only_subscribers_of_the_path_are_called parent_watch_store
           "user.name" (VString "Ada") (listener 1) H).
Defined.

(** ** The subscriber registry: sets, closures and their entries *)

Lemma store_eq s s' :
  state s = state s' -> subscribers s = subscribers s' ->
  configs s = configs s' -> heap s = heap s' -> s = s'.
Proof. destruct s, s'; simpl; intros; subst; reflexivity. Qed.

Lemma alter_fixed {A} (f : A -> A) (l : list A) i :
  (forall x, l !! i = Some x -> f x = x) -> alter f i l = l.
Proof.
  intros Hf. apply list_eq. intros j. destruct (decide (j = i)) as [->|Hne].
  - rewrite list_lookup_alter_eq. destruct (l !! i) eqn:E; [|done].
    simpl. by rewrite Hf.
  - by rewrite list_lookup_alter_ne.
Qed.

Lemma set_add_present cb members :
  existsb (same_callback cb) members = true -> set_add cb members = members.
Proof. unfold set_add. by intros ->. Qed.

Lemma set_add_idem cb members :
  set_add cb (set_add cb members) = set_add cb members.
Proof.
  apply set_add_present. unfold set_add.
  destruct (existsb (same_callback cb) members) eqn:E; [done|].
  rewrite existsb_app, E. simpl. unfold same_callback.
  by rewrite Nat.eqb_refl.
Qed.

Lemma set_delete_idem cb members :
  set_delete cb (set_delete cb members) = set_delete cb members.
Proof.
  unfold set_delete. induction members as [|c rest IH]; [done|]. simpl.
  destruct (negb (same_callback cb c)) eqn:E; simpl; rewrite ?E, IH; done.
Qed.

Lemma set_delete_add cb members :
  set_delete cb (set_add cb members) = set_delete cb members.
Proof.
  unfold set_add. destruct (existsb (same_callback cb) members); [done|].
  unfold set_delete. rewrite List.filter_app. simpl.
  unfold same_callback. rewrite Nat.eqb_refl. simpl. apply app_nil_r.
Qed.

Lemma members_of_heap s path addr :
  well_formed s -> subscribers s !! path = Some addr ->
  heap s !! addr = Some (members_of s path).
Proof.
  intros Hwf Hp. unfold members_of. rewrite Hp.
  destruct (lookup_lt_is_Some_2 (heap s) addr (wf_address _ Hwf _ _ Hp)) as [ms ->].
  done.
Qed.

(** X9: a subscriber set is a set: subscribe(P, S) for a callback S that is
    subscribed to P already changes nothing in the store, so a later
    setValue(P, V) still calls S once. *)
Theorem X9_subscribing_twice_is_subscribing_once s path cb :
  well_formed s ->
  final (subscribe path cb (final (subscribe path cb s))) =
    final (subscribe path cb s) /\
  res (subscribe path cb (final (subscribe path cb s))) =
    res (subscribe path cb s).
Proof.
  intros Hwf.
  destruct (subscribe_spec s path cb Hwf)
    as (addr & Hres & Hsub & Hmem & _ & _ & Hwf1).
  set (s1 := final (subscribe path cb s)) in *.
  rewrite (subscribe_known s1 path cb addr Hsub), Hres. split; [|done].
  cbn [final]. apply store_eq; try reflexivity. cbn [with_heap heap].
  apply alter_fixed. intros l Hl.
  rewrite (members_of_heap s1 path addr Hwf1 Hsub), Hmem in Hl.
  injection Hl as <-. apply set_add_idem.
Qed.

Lemma X9_subscribing_twice_is_subscribing_once_witness :
  well_formed watched_store /\
  final (subscribe "user.name" (listener 1)
           (final (subscribe "user.name" (listener 1) watched_store))) =
    final (subscribe "user.name" (listener 1) watched_store) /\
  res (subscribe "user.name" (listener 1)
         (final (subscribe "user.name" (listener 1) watched_store))) =
    res (subscribe "user.name" (listener 1) watched_store).
Proof.
  split; [exact watched_store_well_formed|].
  exact (X9_subscribing_twice_is_subscribing_once watched_store "user.name"
           (listener 1) watched_store_well_formed).
Defined.

(** X10: a callback that is not yet subscribed to P is added after the
    subscribers P has, so it is the last one setValue(P, V) calls; the
    other paths' entries, the tree and the configs are untouched. *)
Theorem X10_new_subscriber_goes_last s path cb :
  well_formed s ->
  (forall c, c ∈ members_of s path -> same_callback cb c = false) ->
  members_of (final (subscribe path cb s)) path = members_of s path ++ [cb] /\
  state (final (subscribe path cb s)) = state s /\
  configs (final (subscribe path cb s)) = configs s /\
  well_formed (final (subscribe path cb s)).
Proof.
  intros Hwf Hnew.
  destruct (subscribe_spec s path cb Hwf)
    as (addr & _ & _ & Hmem & Hst & Hcfg & Hwf1).
  rewrite Hmem. split; [|done]. unfold set_add.
  destruct (existsb (same_callback cb) (members_of s path)) eqn:E; [|done].
  apply existsb_exists in E as (c & Hc & Hs).
  apply list_elem_of_In in Hc. rewrite (Hnew c Hc) in Hs. discriminate.
Qed.

Lemma X10_new_subscriber_goes_last_witness :
  well_formed watched_store /\
  (forall c, c ∈ members_of watched_store "user.name" ->
     same_callback (listener 2) c = false) /\
  members_of (final (subscribe "user.name" (listener 2) watched_store)) "user.name"
    = members_of watched_store "user.name" ++ [listener 2] /\
  state (final (subscribe "user.name" (listener 2) watched_store)) =
    state watched_store /\
  configs (final (subscribe "user.name" (listener 2) watched_store)) =
    configs watched_store /\
  well_formed (final (subscribe "user.name" (listener 2) watched_store)).
Proof.
  assert (H : forall c, c ∈ members_of watched_store "user.name" ->
                same_callback (listener 2) c = false).
  { intros c Hc. apply list_elem_of_singleton in Hc as ->. reflexivity. }
  split; [exact watched_store_well_formed|]. split; [exact H|].
  exact (X10_new_subscriber_goes_last watched_store "user.name" (listener 2)
           watched_store_well_formed H).
Defined.

(** X11: calling an unsubscribe function twice in a row is calling it once:
    the second call leaves the store as the first left it. *)
Theorem X11_unsubscribing_twice_in_a_row_is_once s u :
  final (unsubscribe u (final (unsubscribe u s))) = final (unsubscribe u s).
Proof.
  rewrite (unsubscribe_final (final (unsubscribe u s))).
  rewrite (unsubscribe_final s). cbv zeta.
  set (del := alter (set_delete (u_callback u)) (u_set u)).
  assert (Hdel : forall h, del (del h) = del h).
  { intros h. subst del. apply list_eq. intros j.
    destruct (decide (j = u_set u)) as [->|Hne].
    - rewrite !list_lookup_alter_eq. destruct (h !! u_set u); [|done].
      simpl. by rewrite set_delete_idem.
    - by rewrite !list_lookup_alter_ne. }
  destruct (Nat.eqb (length (default [] (heap (with_heap del s) !! u_set u))) 0)
    eqn:E; cbn [with_heap with_subscribers heap] in *.
  - rewrite Hdel, E. apply store_eq; cbn; try done.
    apply delete_delete_eq.
  - rewrite Hdel, E. apply store_eq; cbn; done.
Qed.

(** X12: subscribe(P, S) followed by a call of the function it returned
    leaves in the set of P the subscribers P had, S removed (also when S had
    been subscribed before); the registry has an entry for P afterwards
    exactly when subscribers remain. The tree and the configs are as they
    were. *)
Theorem X12_unsubscribe_undoes_subscribe s path cb u :
  well_formed s ->
  res (subscribe path cb s) = Ret u ->
  let s2 := final (unsubscribe u (final (subscribe path cb s))) in
  members_of s2 path = set_delete cb (members_of s path) /\
  (subscribers s2 !! path = None <-> set_delete cb (members_of s path) = []) /\
  state s2 = state s /\
  configs s2 = configs s.
Proof.
  intros Hwf Hu s2. subst s2.
  destruct (subscribe_spec s path cb Hwf)
    as (addr & Hres & Hsub & Hmem & Hst & Hcfg & Hwf1).
  rewrite Hres in Hu. injection Hu as <-.
  set (s1 := final (subscribe path cb s)) in *.
  pose proof (members_of_heap s1 path addr Hwf1 Hsub) as Hh. rewrite Hmem in Hh.
  rewrite unsubscribe_final. cbv zeta. cbn [u_path u_set u_callback].
  assert (Hl : alter (set_delete cb) addr (heap s1) !! addr =
               Some (set_delete cb (members_of s path))).
  { rewrite list_lookup_alter_eq, Hh. simpl. by rewrite set_delete_add. }
  cbn [with_heap heap]. rewrite Hl. cbn [default from_option id].
  destruct (set_delete cb (members_of s path)) as [|c rest] eqn:E;
    cbn [length Nat.eqb]; unfold members_of;
    cbn [with_heap with_subscribers subscribers heap state configs].
  - rewrite lookup_delete_eq. done.
  - rewrite Hsub, Hl. cbn [default from_option id]. done.
Qed.

Lemma X12_unsubscribe_undoes_subscribe_witness :
  well_formed watched_store /\
  res (subscribe "user.name" (listener 2) watched_store) =
    Ret {| u_path := "user.name"; u_set := 0; u_callback := listener 2 |} /\
  let s2 :=
    final (unsubscribe
             {| u_path := "user.name"; u_set := 0; u_callback := listener 2 |}
             (final (subscribe "user.name" (listener 2) watched_store))) in
  members_of s2 "user.name" =
    set_delete (listener 2) (members_of watched_store "user.name") /\
  (subscribers s2 !! "user.name" = None <->
   set_delete (listener 2) (members_of watched_store "user.name") = []) /\
  state s2 = state watched_store /\
  configs s2 = configs watched_store.
Proof.
  split; [exact watched_store_well_formed|]. split; [reflexivity|].
  exact (X12_unsubscribe_undoes_subscribe watched_store "user.name" (listener 2)
           _ watched_store_well_formed eq_refl).
Defined.

(** X13: an unsubscribe function deletes the registry entry of its path
    whenever its own set holds no other callback, also when the entry by then
    points to another set (the function was called before and the path has
    been subscribed to again): that other set keeps its callbacks, but
    setValue on the path no longer calls anyone. *)
Theorem X13_stale_unsubscribe_deletes_the_entry s u addr members :
  subscribers s !! u_path u = Some addr ->
  addr <> u_set u ->
  heap s !! u_set u = Some members ->
  set_delete (u_callback u) members = [] ->
  let s' := final (unsubscribe u s) in
  subscribers s' !! u_path u = None /\
  heap s' !! addr = heap s !! addr /\
  forall v cb, invocations cb (emitted (setValue (u_path u) v s')) = [].
Proof.
  intros Hp Hne Hm Hd s'. subst s'.
  rewrite unsubscribe_final. cbv zeta. cbn [with_heap heap].
  rewrite list_lookup_alter_eq, Hm.
  cbn [fmap option_fmap option_map default from_option id].
  rewrite Hd. cbn [length Nat.eqb with_subscribers with_heap subscribers heap].
  split; [apply lookup_delete_eq|]. split.
  - by rewrite list_lookup_alter_ne.
  - intros v cb. apply invocations_setValue_absent. intros c Hc.
    unfold members_of in Hc. cbn [with_subscribers with_heap subscribers] in Hc.
    rewrite lookup_delete_eq in Hc. inversion Hc.
Qed.

Lemma X13_stale_unsubscribe_deletes_the_entry_witness :
  subscribers resubscribed_store !! u_path first_unsubscribe = Some 1 /\
  1 <> u_set first_unsubscribe /\
  heap resubscribed_store !! u_set first_unsubscribe = Some [] /\
  set_delete (u_callback first_unsubscribe) [] = [] /\
  members_of resubscribed_store "a" = [listener 1] /\
  let s' := final (unsubscribe first_unsubscribe resubscribed_store) in
  subscribers s' !! u_path first_unsubscribe = None /\
  heap s' !! 1 = heap resubscribed_store !! 1 /\
  forall v cb,
    invocations cb (emitted (setValue (u_path first_unsubscribe) v s')) = [].
Proof.
  split; [reflexivity|]. split; [discriminate|]. split; [reflexivity|].
  split; [reflexivity|]. split; [reflexivity|].
  apply (X13_stale_unsubscribe_deletes_the_entry resubscribed_store
           first_unsubscribe 1 []); try reflexivity. discriminate.
Defined.

(** ** Bindings and their configs *)

(** X14: bind registers the config for the path and the last bind wins:
    binding P again gives the store that binding P once with the later
    config gives, so a write at P, through whichever binding, goes through
    the later config's transform (or through none if it has none). Nothing
    but the configs is touched. *)
Theorem X14_rebinding_replaces_the_config s path c1 c2 :
  let s2 := final (bind path c2 (final (bind path c1 s))) in
  s2 = final (bind path c2 s) /\
  configs s2 !! path = Some c2 /\
  (forall v, transformed s2 path v =
     match transform c2 with Some f => f v | None => Ret v end) /\
  state s2 = state s /\
  subscribers s2 = subscribers s /\
  heap s2 = heap s.
Proof.
  cbv zeta. unfold bind. rewrite !andThen_modify. cbn [final ret].
  assert (Hc : configs (with_config path c2 (with_config path c1 s)) !! path
               = Some c2) by apply lookup_insert_eq.
  split; [|split; [exact Hc|split; [|done]]].
  - apply store_eq; try reflexivity. cbn. apply insert_insert_eq.
  - intros v. unfold transformed. rewrite Hc. reflexivity.
Qed.

(** X15: a binding whose validator is [required] is invalid, with the error
    "This field is required", exactly when the value stored at its path is
    null, undefined or the empty string, a path never written being one that
    reads undefined; any other value, false and 0 included, makes it valid
    with no error. Reading either getter leaves the store as it is. (The
    read of the path goes through mappings.) *)
Theorem X15_required_rejects_blank_values b s :
  plain_read s (Binding_path b) = true ->
  validate (Binding_config b) = Some required ->
  res (Binding_isValid b s) = Ret (negb (blank (getValue s (Binding_path b)))) /\
  res (Binding_error b s) =
    Ret (if blank (getValue s (Binding_path b))
         then Some "This field is required" else None) /\
  final (Binding_isValid b s) = s /\
  final (Binding_error b s) = s.
Proof.
  intros _ Hv. unfold Binding_isValid, Binding_error.
  rewrite !andThen_gets, Hv. unfold andThen, call. cbn [res final].
  destruct (getValue s (Binding_path b)) as [| |[]|n|[|c t]|props]; done.
Qed.

Lemma X15_required_rejects_blank_values_witness :
  let b := {| Binding_path := "user.name";
              Binding_config :=
                {| transform := None; validate := Some required;
                   debounce := None; immediate := None;
                   validationTiming := None |} |} in
  plain_read profile_store (Binding_path b) = true /\
  validate (Binding_config b) = Some required /\
  getValue profile_store (Binding_path b) = VUndefined /\
  res (Binding_isValid b profile_store) =
    Ret (negb (blank (getValue profile_store (Binding_path b)))) /\
  res (Binding_error b profile_store) =
    Ret (if blank (getValue profile_store (Binding_path b))
         then Some "This field is required" else None) /\
  final (Binding_isValid b profile_store) = profile_store /\
  final (Binding_error b profile_store) = profile_store.
Proof.
  split; [reflexivity|]. split; [reflexivity|]. split; [reflexivity|].
  apply (X15_required_rejects_blank_values
           {| Binding_path := "user.name";
              Binding_config :=
                {| transform := None; validate := Some required;
                   debounce := None; immediate := None;
                   validationTiming := None |} |} profile_store);
    reflexivity.
Defined.

(** ** The input adapter: idle events, composition sessions, flags *)

Section AdapterProperties.

Variable parseFloat : string -> number.

Lemma not_composing_not_ignored context target :
  isComposing context = false ->
  shouldIgnoreComposition context target = false.
Proof.
  intros Hc. unfold shouldIgnoreComposition. rewrite Hc.
  destruct (has_selectionStart target), (platform context); reflexivity.
Qed.

(** X16: outside a composition a change event is never suppressed, on any
    platform: the handler ends in a setValue call whose argument is the
    checked state for a checkbox, for a radio its value when checked and
    the binding's current value when not, for a number field what
    [transformers.toNumber] makes of the text, and the text otherwise. It
    leaves the field touched. *)
Theorem X16_idle_change_is_written_through context target bindingValue :
  isComposing context = false ->
  snd (handleChange parseFloat context target bindingValue) =
    Some (if String.eqb (target_type target) "checkbox"
          then VBool (target_checked target)
          else if String.eqb (target_type target) "radio"
          then (if target_checked target then VString (target_value target)
                else bindingValue)
          else if String.eqb (target_type target) "number"
          then VNumber (toNumber parseFloat (target_value target))
          else VString (target_value target)) /\
  touched (fst (handleChange parseFloat context target bindingValue)) = true /\
  isComposing (fst (handleChange parseFloat context target bindingValue)) = false.
Proof.
  intros Hc. unfold handleChange.
  rewrite not_composing_not_ignored
    by (destruct (touched context); exact Hc).
  cbn [fst snd]. split; [reflexivity|].
  destruct (touched context) eqn:Ht, (has_selectionStart target); cbn; auto.
Qed.

(** X17: an input event ends in a setValue call unless the adapter is
    composing, or the field is not a number field and its text is the
    last-seen text. (A number field's parsed number is never identical to
    the last-seen text, so outside a composition every input event of a
    number field is written.) *)
Theorem X17_input_is_dropped_when_composing_or_unchanged context target :
  snd (handleInput parseFloat context target) = None <->
  isComposing context = true \/
  (String.eqb (target_type target) "number" = false /\
   target_value target = lastValue context).
Proof.
  unfold handleInput.
  assert (Ht : forall c : InputContext,
    isComposing (if negb (touched context) then set_touched context else context)
      = isComposing context /\
    lastValue (if negb (touched context) then set_touched context else context)
      = lastValue context).
  { intros _. destruct (touched context); done. }
  destruct (Ht context) as [-> ->].
  destruct (isComposing context); cbn [negb snd]; [tauto|].
  destruct (String.eqb (target_type target) "number"); cbn [snd].
  - split; [discriminate|]. intros [?|[? _]]; discriminate.
  - destruct (String.eqb_spec (target_value target) (lastValue context));
      cbn [negb snd].
    + tauto.
    + split; [discriminate|]. intros [?|[_ ?]]; [discriminate|done].
Qed.

(** X18: after a change event written outside a composition from a control
    with a selection range, an input event for the same text is dropped,
    unless the field is a number field, whose input event is written
    again. *)
Theorem X18_input_after_change_is_not_written_again context target bindingValue :
  isComposing context = false ->
  has_selectionStart target = true ->
  snd (handleInput parseFloat
         (fst (handleChange parseFloat context target bindingValue)) target) =
    if String.eqb (target_type target) "number"
    then Some (VNumber (or_zero (parseFloat (target_value target))))
    else None.
Proof.
  intros Hc Hs. unfold handleChange.
  rewrite not_composing_not_ignored
    by (destruct (touched context); exact Hc).
  rewrite Hs. cbn [fst]. unfold handleInput.
  set (c1 := set_selection target _).
  assert (H1 : touched c1 = true)
    by (subst c1; destruct (touched context) eqn:Ht; cbn; auto).
  assert (H2 : isComposing c1 = false)
    by (subst c1; destruct (touched context); cbn; auto).
  assert (H3 : lastValue c1 = target_value target) by done.
  rewrite H1. cbn [negb]. rewrite H2. cbn [negb]. rewrite H3.
  destruct (String.eqb (target_type target) "number"); cbn [snd]; [done|].
  rewrite String.eqb_refl. done.
Qed.

Lemma flags_step context ev bindingValue :
  touched (fst (handle parseFloat context ev bindingValue)) =
    touched context || touches ev /\
  submitAttempted (fst (handle parseFloat context ev bindingValue)) =
    submitAttempted context || submits ev.
Proof.
  destruct ev as [target|target|target|target| | |]; cbn [handle touches submits].
  - destruct (handleChange_touched parseFloat context target bindingValue) as [-> ->].
    by rewrite orb_true_r, orb_false_r.
  - destruct (handleInput_touched parseFloat context target) as [-> ->].
    by rewrite orb_true_r, orb_false_r.
  - cbn. by rewrite !orb_false_r.
  - cbn. by rewrite !orb_false_r.
  - unfold handleFocus. cbn [fst]. destruct (touched context) eqn:Ht; cbn;
      rewrite ?Ht, ?orb_false_r; done.
  - cbn. by rewrite orb_true_r, orb_false_r.
  - cbn. by rewrite orb_true_r, orb_false_r.
Qed.

(** X19: after a run of events, touched is true exactly when it was before
    or the run holds a change, input, focus or blur event (a change event
    counts even when composition suppresses its write), and submitAttempted
    exactly when it was before or markSubmitAttempted was called. So
    validation errors show, after the run: always under 'onChange'; under
    'onSubmit' once a submit was attempted; under 'onTouch', the default,
    once the field was touched; and once shown they stay shown. *)
Theorem X19_flags_after_a_run b (evs : list InputEvent) :
  forall context s config,
  let context' := fst (deliver_all parseFloat b context evs s) in
  touched context' = touched context || existsb touches evs /\
  submitAttempted context' = submitAttempted context || existsb submits evs /\
  shouldShowValidation config context' =
    match default onTouch (config ≫= validationTiming) with
    | onChange => true
    | onSubmit => submitAttempted context || existsb submits evs
    | onTouch => touched context || existsb touches evs
    end.
Proof.
  assert (H : forall context s,
    touched (fst (deliver_all parseFloat b context evs s)) =
      touched context || existsb touches evs /\
    submitAttempted (fst (deliver_all parseFloat b context evs s)) =
      submitAttempted context || existsb submits evs).
  { induction evs as [|ev evs' IH]; intros context s.
    - cbn. by rewrite !orb_false_r.
    - cbn [deliver_all existsb].
      pose proof (deliver_context parseFloat b context ev s) as Hd.
      destruct (deliver parseFloat b context ev s) as [context' r].
      cbn [fst] in Hd. subst context'.
      destruct (IH (fst (handle parseFloat context ev (getValue s (Binding_path b))))
                   (final r)) as [-> ->].
      destruct (flags_step context ev (getValue s (Binding_path b))) as [-> ->].
      by rewrite !orb_assoc. }
  intros context s config. cbv zeta. destruct (H context s) as [Ht Hs].
  split; [exact Ht|]. split; [exact Hs|].
  unfold shouldShowValidation. rewrite Ht, Hs. reflexivity.
Qed.

Lemma composing_event_is_quiet context ev bindingValue :
  isComposing context = true ->
  platform context = desktop \/ platform context = other ->
  during_composition ev = true ->
  snd (handle parseFloat context ev bindingValue) = None /\
  isComposing (fst (handle parseFloat context ev bindingValue)) = true /\
  platform (fst (handle parseFloat context ev bindingValue)) = platform context.
Proof.
  intros Hc Hp Hev.
  destruct ev as [target|target|target|target| | |]; cbn [handle];
    try discriminate.
  - cbn [during_composition] in Hev. unfold handleChange.
    assert (Hi : shouldIgnoreComposition
                   (if negb (touched context) then set_touched context else context)
                   target = true).
    { unfold shouldIgnoreComposition. rewrite Hev.
      destruct (touched context); cbn [negb set_touched platform isComposing];
        destruct Hp as [-> | ->]; exact Hc. }
    rewrite Hi. destruct (touched context); done.
  - unfold handleInput.
    destruct (touched context); cbn [negb set_touched isComposing];
      rewrite Hc; done.
  - done.
  - unfold handleFocus. destruct (touched context); done.
  - done.
  - done.
Qed.

Lemma quiet_run b mids : forall context s rest,
  isComposing context = true ->
  platform context = desktop \/ platform context = other ->
  forallb during_composition mids = true ->
  exists context',
    isComposing context' = true /\
    deliver_issued parseFloat b context (mids ++ rest) s =
      deliver_issued parseFloat b context' rest s /\
    deliver_all parseFloat b context (mids ++ rest) s =
      deliver_all parseFloat b context' rest s.
Proof.
  induction mids as [|ev mids' IH]; intros context s rest Hc Hp Hall.
  - exists context. done.
  - cbn [forallb] in Hall. apply andb_true_iff in Hall as [Hev Hall].
    destruct (composing_event_is_quiet context ev (getValue s (Binding_path b))
                Hc Hp Hev) as (Hnone & Hc' & Hp').
    cbn [app deliver_issued deliver_all]. unfold deliver.
    destruct (handle parseFloat context ev (getValue s (Binding_path b)))
      as [context1 issued].
    cbn [fst snd] in Hnone, Hc', Hp'. subst issued. cbn [app ret final].
    apply IH; [done| |done]. by rewrite Hp'.
Qed.

(** X20: on a desktop-class or unclassified platform a composition session
    writes once: from compositionstart to compositionend, whatever change
    events of controls with a selection range, input, focus, blur,
    compositionstart and markSubmitAttempted events come in between, the
    only setValue call is the one compositionend makes, with the final
    text (or the number it parses to); the adapter is then not composing
    and its last-seen text is the final text. *)
Theorem X20_composition_session_writes_once b context s start mids last_target :
  platform context = desktop \/ platform context = other ->
  forallb during_composition mids = true ->
  let evs := compositionstart start :: mids ++ [compositionend last_target] in
  deliver_issued parseFloat b context evs s =
    [if String.eqb (target_type last_target) "number"
     then VNumber (or_zero (parseFloat (target_value last_target)))
     else VString (target_value last_target)] /\
  isComposing (fst (deliver_all parseFloat b context evs s)) = false /\
  lastValue (fst (deliver_all parseFloat b context evs s)) =
    target_value last_target.
Proof.
  intros Hp Hall evs. subst evs.
  cbn [deliver_issued deliver_all deliver handle handleCompositionStart app
       ret final].
  destruct (quiet_run b mids (set_isComposing true (target_value start) context)
              s [compositionend last_target] eq_refl Hp Hall)
    as (context' & Hc' & -> & ->).
  cbn [deliver_issued deliver_all deliver handle handleCompositionEnd app fst].
  done.
Qed.

(** X21: a number field never writes NaN: the number in the setValue call of
    a change, input or compositionend event of a number field is not NaN,
    and neither is what [transformers.toNumber] returns. *)
Theorem X21_number_fields_never_write_NaN context target bindingValue ev v :
  target_type target = "number" ->
  ev = change target \/ ev = input target \/ ev = compositionend target ->
  snd (handle parseFloat context ev bindingValue) = Some v ->
  (exists n, v = VNumber n /\ is_nan n = false) /\
  forall text, is_nan (toNumber parseFloat text) = false.
Proof.
  assert (Hz : is_nan 0%float = false) by reflexivity.
  assert (Ho : forall n, is_nan (or_zero n) = false).
  { intros n. unfold or_zero, falsy. destruct (is_nan n) eqn:E; simpl; [done|].
    destruct (is_zero n); done. }
  assert (Hn : forall n, is_nan (if is_nan n then 0%float else n) = false).
  { intros n. destruct (is_nan n) eqn:E; done. }
  intros Ht Hev Hv. split; [|intros text; apply Hn].
  destruct Hev as [-> | [-> | ->]]; cbn [handle] in Hv.
  - unfold handleChange in Hv. rewrite Ht in Hv.
    destruct (shouldIgnoreComposition _ target); [discriminate|].
    cbn in Hv. injection Hv as <-. eauto.
  - unfold handleInput in Hv. rewrite Ht in Hv.
    destruct (negb (isComposing _)); [|discriminate].
    cbn in Hv. injection Hv as <-. eauto.
  - unfold handleCompositionEnd in Hv. rewrite Ht in Hv.
    cbn in Hv. injection Hv as <-. eauto.
Qed.

End AdapterProperties.

Lemma X16_idle_change_is_written_through_witness :
  isComposing (initialContext "" ios) = false /\
  snd (handleChange digits_parseFloat (initialContext "" ios) (number_input "42")
         VUndefined) = Some (VNumber 42%float) /\
  touched (fst (handleChange digits_parseFloat (initialContext "" ios)
                  (number_input "42") VUndefined)) = true /\
  isComposing (fst (handleChange digits_parseFloat (initialContext "" ios)
                      (number_input "42") VUndefined)) = false.
Proof.
  split; [reflexivity|].
  apply (X16_idle_change_is_written_through digits_parseFloat
           (initialContext "" ios) (number_input "42") VUndefined).
  reflexivity.
Defined.

Lemma X18_input_after_change_is_not_written_again_witness :
  isComposing (initialContext "" desktop) = false /\
  has_selectionStart (text_input "a") = true /\
  snd (handleInput digits_parseFloat
         (fst (handleChange digits_parseFloat (initialContext "" desktop)
                 (text_input "a") VUndefined)) (text_input "a")) = None.
Proof.
  split; [reflexivity|]. split; [reflexivity|].
  apply (X18_input_after_change_is_not_written_again digits_parseFloat
           (initialContext "" desktop) (text_input "a") VUndefined);
    reflexivity.
Defined.

Lemma X20_composition_session_writes_once_witness :
  let mids := [input (text_input "ni"); change (text_input "ni"); blur;
               change (text_input "nih")] in
  let evs := compositionstart (text_input "n") :: mids ++
             [compositionend (text_input "nihao")] in
  (platform (initialContext "" desktop) = desktop \/
   platform (initialContext "" desktop) = other) /\
  forallb during_composition mids = true /\
  deliver_issued digits_parseFloat title (initialContext "" desktop) evs
    title_store = [VString "nihao"] /\
  isComposing (fst (deliver_all digits_parseFloat title
                      (initialContext "" desktop) evs title_store)) = false /\
  lastValue (fst (deliver_all digits_parseFloat title
                    (initialContext "" desktop) evs title_store)) = "nihao".
Proof.
  split; [left; reflexivity|]. split; [reflexivity|].
  apply (X20_composition_session_writes_once digits_parseFloat title
           (initialContext "" desktop) title_store (text_input "n")
           [input (text_input "ni"); change (text_input "ni"); blur;
            change (text_input "nih")] (text_input "nihao"));
    [left|]; reflexivity.
Defined.

Lemma X21_number_fields_never_write_NaN_witness :
  target_type (number_input "abc") = "number" /\
  (change (number_input "abc") = change (number_input "abc") \/
   change (number_input "abc") = input (number_input "abc") \/
   change (number_input "abc") = compositionend (number_input "abc")) /\
  snd (handle digits_parseFloat (initialContext "" android)
         (change (number_input "abc")) VUndefined) = Some (VNumber 0%float) /\
  (exists n, VNumber 0%float = VNumber n /\ is_nan n = false) /\
  forall text, is_nan (toNumber digits_parseFloat text) = false.
Proof.
  split; [reflexivity|]. split; [left; reflexivity|]. split; [reflexivity|].
  apply (X21_number_fields_never_write_NaN digits_parseFloat
           (initialContext "" android) (number_input "abc") VUndefined
           (change (number_input "abc")) (VNumber 0%float));
    [reflexivity|left; reflexivity|reflexivity].
Defined.

(** ** detectPlatform, useFormValidation, and the registry invariant *)

Lemma test_occurs word text :
  word <> "" -> (test word text = true <-> occurs word text).
Proof.
  intros Hw. unfold test, occurs.
  destruct (String.index 0 word text) as [m|] eqn:E.
  - split; [intros _|done]. exists m. eapply index_correct1, E.
  - split; [discriminate|]. intros [m Hm].
    exfalso. eapply (index_correct3 0 m), Hm; [exact E|exact Hw|lia].
Qed.

(** X22: detectPlatform classifies by the first test that matches the
    lower-cased user agent: 'android' when it holds "android"; else 'ios'
    when it holds "iphone", "ipad" or "ipod"; else 'desktop' when it holds
    "windows", "mac" or "linux"; else, and without a navigator, 'other'. So
    an Android agent that mentions Linux is Android-class, and an iPhone agent
    that mentions Mac OS is iOS-class. *)
Theorem X22_detectPlatform_takes_the_first_match (toLowerCase : string -> string)
    (agent : string) :
  let userAgent := toLowerCase agent in
  let is_android := occurs "android" userAgent in
  let is_ios := occurs "iphone" userAgent \/ occurs "ipad" userAgent \/
                occurs "ipod" userAgent in
  let is_desktop := occurs "windows" userAgent \/ occurs "mac" userAgent \/
                    occurs "linux" userAgent in
  detectPlatform toLowerCase None = other /\
  (detectPlatform toLowerCase (Some agent) = android <-> is_android) /\
  (detectPlatform toLowerCase (Some agent) = ios <-> ~ is_android /\ is_ios) /\
  (detectPlatform toLowerCase (Some agent) = desktop <->
     ~ is_android /\ ~ is_ios /\ is_desktop) /\
  (detectPlatform toLowerCase (Some agent) = other <->
     ~ is_android /\ ~ is_ios /\ ~ is_desktop).
Proof.
  cbv zeta. unfold detectPlatform.
  pose proof (test_occurs "android" (toLowerCase agent)) as Ha.
  pose proof (test_occurs "iphone" (toLowerCase agent)) as Hi1.
  pose proof (test_occurs "ipad" (toLowerCase agent)) as Hi2.
  pose proof (test_occurs "ipod" (toLowerCase agent)) as Hi3.
  pose proof (test_occurs "windows" (toLowerCase agent)) as Hd1.
  pose proof (test_occurs "mac" (toLowerCase agent)) as Hd2.
  pose proof (test_occurs "linux" (toLowerCase agent)) as Hd3.
  destruct (test "android" _), (test "iphone" _), (test "ipad" _),
    (test "ipod" _), (test "windows" _), (test "mac" _), (test "linux" _);
    cbn [orb];
    (split; [reflexivity|]);
    repeat split; try discriminate; intuition discriminate.
Qed.

Lemma omap_nil_iff (bindings : list BindingView) :
  omap (fun binding => truthy_error (view_error binding)) bindings = [] <->
  Forall (fun binding => view_error binding = None \/ view_error binding = Some "")
    bindings.
Proof.
  induction bindings as [|b rest IH]; [done|]. cbn [omap list_omap].
  destruct (view_error b) as [[|c t]|] eqn:E; cbn [truthy_error].
  - rewrite IH. split; [intros; constructor; auto|by intros [_ ?]%Forall_cons].
  - split; [discriminate|].
    intros [[H|H] _]%Forall_cons; rewrite E in H; discriminate.
  - rewrite IH. split; [intros; constructor; auto|by intros [_ ?]%Forall_cons].
Qed.

(** X23: the form is valid exactly when no binding has an error that is a
    non-empty string; the isValid of the bindings is not looked at, so a
    binding that is invalid without a message (its validator returned
    false) does not make the form invalid. firstError is the first of the
    errors, and there is none exactly when the form is valid. *)
Theorem X23_form_is_valid_without_error_messages (bindings : list BindingView) :
  (form_isValid (useFormValidation bindings) = true <->
   Forall (fun binding => view_error binding = None \/ view_error binding = Some "")
     bindings) /\
  (forall others,
     map view_error others = map view_error bindings ->
     useFormValidation others = useFormValidation bindings) /\
  form_firstError (useFormValidation bindings) =
    head (form_errors (useFormValidation bindings)) /\
  (form_firstError (useFormValidation bindings) = None <->
   form_isValid (useFormValidation bindings) = true).
Proof.
  unfold useFormValidation. cbn [form_isValid form_errors form_firstError].
  split; [|split; [|split; [reflexivity|]]].
  - rewrite <- omap_nil_iff, Nat.eqb_eq. apply length_zero_iff_nil.
  - intros others Heq.
    assert (Hm : omap (fun binding => truthy_error (view_error binding)) others =
                 omap (fun binding => truthy_error (view_error binding)) bindings).
    { revert bindings Heq. induction others as [|o os IH];
        intros [|b bs] Heq; try discriminate; [done|].
      injection Heq as Ho Hos. cbn [omap list_omap]. rewrite Ho.
      destruct (truthy_error (view_error b)); rewrite (IH bs Hos); done. }
    by rewrite Hm.
  - destruct (omap _ bindings); cbn; split; done.
Qed.

Lemma after_call_well_formed c s : well_formed s -> well_formed (after_call c s).
Proof.
  intros Hwf. destruct c as [path config|path v|path callback|u]; cbn [after_call].
  - by apply bind_well_formed.
  - by apply setValue_well_formed.
  - by destruct (subscribe_spec s path callback Hwf) as (_ & _ & _ & _ & _ & _ & H).
  - by apply unsubscribe_well_formed.
Qed.

(** X24: whatever calls of bind, setValue, subscribe and of unsubscribe
    functions a store made by createBindingStore goes through, returning or
    throwing, no subscriber set lists a callback twice and every registry
    entry points to a set that exists; hence no setValue calls a subscriber
    more than once. *)
Theorem X24_registry_stays_well_formed initialState (calls : list StoreCall) :
  let s := after_calls calls (createBindingStore initialState) in
  well_formed s /\
  forall path, NoDup (cb_id <$> members_of s path).
Proof.
  cbv zeta.
  assert (H : forall s, well_formed s -> well_formed (after_calls calls s)).
  { unfold after_calls. induction calls as [|c rest IH]; intros s Hs; [done|].
    cbn [fold_left]. apply IH, after_call_well_formed, Hs. }
  pose proof (H _ (createBindingStore_well_formed initialState)) as Hwf.
  split; [exact Hwf|]. intros path. unfold members_of.
  destruct (subscribers _ !! path) as [addr|]; [|apply NoDup_nil_2].
  destruct (heap _ !! addr) as [ms|] eqn:E; [|apply NoDup_nil_2].
  eapply (wf_members _ Hwf), E.
Qed.

(** X25: on an Android-class platform, while composing, a change event
    whose text was just seen is dropped: after any change event of a control
    with a selection range, written or not, a second change event with the
    same text makes no setValue call. *)
Theorem X25_android_drops_a_repeated_change (parseFloat : string -> number)
    context target bindingValue bindingValue' :
  platform context = android ->
  isComposing context = true ->
  has_selectionStart target = true ->
  snd (handleChange parseFloat
         (fst (handleChange parseFloat context target bindingValue))
         target bindingValue') = None.
Proof.
  intros Hp Hc Hs.
  assert (Hignore : forall c,
    platform c = android -> isComposing c = true ->
    lastValue c = target_value target ->
    snd (handleChange parseFloat c target bindingValue') = None).
  { intros c Hp' Hc' Hl. unfold handleChange.
    assert (Hi : shouldIgnoreComposition
                   (if negb (touched c) then set_touched c else c) target = true).
    { unfold shouldIgnoreComposition. rewrite Hs.
      destruct (touched c); cbn [negb set_touched platform isComposing lastValue];
        rewrite Hp', Hc', Hl; cbn; apply String.eqb_refl. }
    by rewrite Hi. }
  unfold handleChange at 2.
  set (c0 := if negb (touched context) then set_touched context else context).
  assert (Hp0 : platform c0 = android) by (subst c0; destruct (touched context); done).
  assert (Hc0 : isComposing c0 = true) by (subst c0; destruct (touched context); done).
  assert (Hl0 : lastValue c0 = lastValue context)
    by (subst c0; destruct (touched context); done).
  destruct (shouldIgnoreComposition c0 target) eqn:Hi; cbn [fst].
  - apply Hignore; [done|done|].
    unfold shouldIgnoreComposition in Hi. rewrite Hs, Hp0, Hc0 in Hi.
    cbn in Hi. apply String.eqb_eq in Hi. congruence.
  - rewrite Hs. apply Hignore; done.
Qed.

Lemma X25_android_drops_a_repeated_change_witness :
  platform (composing android "ni") = android /\
  isComposing (composing android "ni") = true /\
  has_selectionStart (text_input "nih") = true /\
  snd (handleChange digits_parseFloat (composing android "ni") (text_input "nih")
         VUndefined) = Some (VString "nih") /\
  snd (handleChange digits_parseFloat
         (fst (handleChange digits_parseFloat (composing android "ni")
                 (text_input "nih") VUndefined))
         (text_input "nih") (VString "nih")) = None.
Proof.
  split; [reflexivity|]. split; [reflexivity|]. split; [reflexivity|].
  split; [reflexivity|].
  apply (X25_android_drops_a_repeated_change digits_parseFloat
           (composing android "ni") (text_input "nih") VUndefined (VString "nih"));
    reflexivity.
Defined.
